(** * load_ecom_data.py: the CSV-to-SQLite loader

    A shallow embedding of [src/load_ecom_data.py] and the properties of its
    specification.

    What is modelled, and how:
    - Python text is a [string] of ASCII characters; [str.strip] and
      [str.upper] are modelled on ASCII (Python's ASCII white space is
      9-13, 28-31 and 32).
    - a [DataFrame] is an ordered sequence of rows, each row a finite map
      from column label to cell; a cell that a row lacks reads as NaN, as
      pandas fills it.  Column labels are unique (pandas' [read_csv]
      renames repeated header names), so a frame with a repeated label has
      no representation here.
    - DataFrames are Python objects: they live in a heap and the program
      holds references to them, so that copying and assigning in place are
      told apart.
    - the file system is the finite map from a path to the frame that
      [pd.read_csv] yields for the file at that path; a path outside the
      map is a missing file.  The value of a cell is therefore the value
      pandas read, not the characters of the file.
    - the SQLite store is the committed content of the database file: a
      finite map from table name to the table's schema and rows.  Every
      statement the loader runs is committed when it succeeds (DDL runs in
      autocommit mode, [to_sql] commits its own transaction) and rolled
      back when it fails.  The constraints of the five tables (rowid,
      NOT NULL, CHECK, PRIMARY KEY, FOREIGN KEY) are checked row by row.
    - SQLite's conversion of a value to the affinity of its column is a
      parameter, [convert]; every property holds for any conversion.
    - a float is kept by its decimal text; no arithmetic is done on it.
    - the statements that reach the connection are kept in a ghost trace. *)

From stdpp Require Import base option list strings gmap pretty.
From Stdlib Require Import ZArith Lia Ascii.

Local Open Scope Z_scope.
Local Open Scope string_scope.
Local Open Scope list_scope.

(** ** Python text *)

Module PyStr.

(** [str.isspace] on an ASCII character. *)
Definition is_space (a : ascii) : bool :=
  let n := nat_of_ascii a in
  ((9 <=? n)%nat && (n <=? 13)%nat) || ((28 <=? n)%nat && (n <=? 32)%nat).

Fixpoint lstrip (s : string) : string :=
  match s with
  | EmptyString => EmptyString
  | String a s' => if is_space a then lstrip s' else s
  end.

Fixpoint rstrip (s : string) : string :=
  match s with
  | EmptyString => EmptyString
  | String a s' =>
      match rstrip s' with
      | EmptyString => if is_space a then EmptyString else String a EmptyString
      | r => String a r
      end
  end.

(** [s.strip()] *)
Definition strip (s : string) : string := rstrip (lstrip s).

Definition upper_char (a : ascii) : ascii :=
  let n := nat_of_ascii a in
  if ((97 <=? n)%nat && (n <=? 122)%nat) then ascii_of_nat (n - 32) else a.

(** [s.upper()] *)
Fixpoint upper (s : string) : string :=
  match s with
  | EmptyString => EmptyString
  | String a s' => String (upper_char a) (upper s')
  end.

End PyStr.

(** ** Cells, rows and DataFrames *)

(** A cell of a DataFrame, by the Python object it holds. *)
Inductive value : Type :=
  | VStr (s : string)       (* a str *)
  | VInt (z : Z)            (* an int64 *)
  | VFloat (repr : string)  (* a float64 other than NaN, kept by its decimal text *)
  | VBool (b : bool)        (* a bool *)
  | VNaN.                   (* a missing value *)

#[global] Instance value_eq_dec : EqDecision value.
Proof. solve_decision. Defined.

(** [str(v)], which [Series.astype(str)] applies to every cell. *)
Definition py_str (v : value) : string :=
  match v with
  | VStr s => s
  | VInt z => pretty z
  | VFloat r => r
  | VBool true => "True"
  | VBool false => "False"
  | VNaN => "nan"
  end.

Record DataFrame : Type := mkDataFrame {
  columns : list string;
  rows : list (gmap string value);
}.

#[global] Instance DataFrame_eq_dec : EqDecision DataFrame.
Proof. solve_decision. Defined.

(** The cell of a row under a label; a row that lacks it holds NaN there. *)
Definition cell (r : gmap string value) (c : string) : value :=
  default VNaN (r !! c).

(** ** Errors *)

Inductive error : Type :=
  | FileNotFoundError (msg : string)
  | KeyError (key : string)
  | ValueError (msg : string)
  | IntegrityError (msg : string)     (* sqlite3.IntegrityError *)
  | OperationalError (msg : string)   (* sqlite3.OperationalError *)
  | DanglingReference.
  (* [DanglingReference] is no Python exception: it is the outcome of using a
     reference to no object, which a Python program cannot hold. *)

#[global] Instance error_eq_dec : EqDecision error.
Proof. solve_decision. Defined.


(** ** Series operations used by the normalizer *)

Module Series.

(** [df[column]]: the cells of one column, in row order. *)
Definition getitem (df : DataFrame) (column : string) : error + list value :=
  if decide (column ∈ columns df)
  then inr ((λ r, cell r column) <$> rows df)
  else inl (KeyError column).

(** [df[column] = s]: an existing column is overwritten where it stands, a
    new one is added last; a series of another length is refused. *)
Definition setitem (df : DataFrame) (column : string) (s : list value)
  : error + DataFrame :=
  if decide (length s = length (rows df))
  then inr {| columns := if decide (column ∈ columns df) then columns df
                         else columns df ++ [column];
              rows := zip_with (λ r v, <[column := v]> r) (rows df) s |}
  else inl (ValueError "Length of values does not match length of index").

Definition astype_str (s : list value) : list string := py_str <$> s.
Definition str_strip (s : list string) : list string := PyStr.strip <$> s.
Definition str_upper (s : list string) : list string := PyStr.upper <$> s.

(** [s.map(d)]: a text outside the dict maps to NaN, here [None]. *)
Definition map_dict (d : gmap string Z) (s : list string) : list (option Z) :=
  (λ x, d !! x) <$> s.

Definition fillna (z : Z) (s : list (option Z)) : list Z := default z <$> s.
Definition astype_int (s : list Z) : list value := VInt <$> s.

End Series.

(** The dict literal [{"TRUE": 1, "FALSE": 0}]. *)
Definition BOOL_MAP : gmap string Z := <["TRUE" := 1]> (<["FALSE" := 0]> ∅).

(** ** The SQLite store *)

Inductive sqltype : Type := INTEGER | TEXT | REAL.

#[global] Instance sqltype_eq_dec : EqDecision sqltype.
Proof. solve_decision. Defined.

(** A value as SQLite stores it, by storage class. *)
Inductive sqlval : Type :=
  | SNull
  | SInt (z : Z)
  | SReal (repr : string)
  | SText (s : string).

#[global] Instance sqlval_eq_dec : EqDecision sqlval.
Proof. solve_decision. Defined.

(** One column of a [CREATE TABLE] statement.  [col_check_in] is the list of
    a [CHECK (c IN (...))] constraint. *)
Record column_def : Type := mkColumn {
  col_name : string;
  col_type : sqltype;
  col_pk : bool;
  col_not_null : bool;
  col_check_in : option (list Z);
}.

(** [FOREIGN KEY (fk_column) REFERENCES fk_table(fk_parent)] *)
Record foreign_key : Type := mkForeignKey {
  fk_column : string;
  fk_table : string;
  fk_parent : string;
}.

Record table_schema : Type := mkSchema {
  ts_columns : list column_def;
  ts_foreign_keys : list foreign_key;
}.

#[global] Instance column_def_eq_dec : EqDecision column_def.
Proof. solve_decision. Defined.
#[global] Instance foreign_key_eq_dec : EqDecision foreign_key.
Proof. solve_decision. Defined.
#[global] Instance table_schema_eq_dec : EqDecision table_schema.
Proof. solve_decision. Defined.

Definition pk (n : string) (t : sqltype) : column_def := mkColumn n t true false None.
Definition not_null (n : string) (t : sqltype) : column_def := mkColumn n t false true None.

(** [TABLE_SCHEMAS]: a Python dict keeps its keys in insertion order, so the
    dict is the list of its items in the order of the literal. *)
Definition TABLE_SCHEMAS : list (string * table_schema) :=
  [ ("customers",
      mkSchema
        [ pk "customer_id" INTEGER;
          not_null "name" TEXT;
          not_null "email" TEXT;
          not_null "phone" TEXT;
          not_null "created_at" TEXT;
          not_null "city" TEXT;
          not_null "state" TEXT ]
        []);
    ("products",
      mkSchema
        [ pk "product_id" TEXT;
          not_null "product_name" TEXT;
          not_null "category" TEXT;
          not_null "price" REAL;
          mkColumn "in_stock" INTEGER false true (Some [0; 1]);
          not_null "added_at" TEXT ]
        []);
    ("orders",
      mkSchema
        [ pk "order_id" TEXT;
          not_null "customer_id" INTEGER;
          not_null "order_date" TEXT;
          not_null "total_amount" REAL;
          not_null "payment_method" TEXT;
          not_null "order_status" TEXT ]
        [ mkForeignKey "customer_id" "customers" "customer_id" ]);
    ("order_items",
      mkSchema
        [ pk "item_id" TEXT;
          not_null "order_id" TEXT;
          not_null "product_id" TEXT;
          not_null "quantity" INTEGER;
          not_null "item_price" REAL ]
        [ mkForeignKey "order_id" "orders" "order_id";
          mkForeignKey "product_id" "products" "product_id" ]);
    ("reviews",
      mkSchema
        [ pk "review_id" TEXT;
          not_null "customer_id" INTEGER;
          not_null "product_id" TEXT;
          not_null "rating" INTEGER;
          not_null "comment" TEXT;
          not_null "review_date" TEXT ]
        [ mkForeignKey "customer_id" "customers" "customer_id";
          mkForeignKey "product_id" "products" "product_id" ]) ].

(** The list literal of the loading loop in [main]. *)
Definition LOAD_ORDER : list string :=
  ["customers"; "products"; "orders"; "order_items"; "reviews"].

Record Table : Type := mkTable {
  t_schema : table_schema;
  t_rows : list (gmap string sqlval);
}.

#[global] Instance Table_eq_dec : EqDecision Table.
Proof. solve_decision. Defined.

(** How pandas hands a cell to sqlite3: NaN as [None], a bool as an int. *)
Definition adapt (v : value) : sqlval :=
  match v with
  | VStr s => SText s
  | VInt z => SInt z
  | VFloat r => SReal r
  | VBool b => SInt (if b then 1 else 0)
  | VNaN => SNull
  end.

Definition first_error (a b : option error) : option error :=
  match a with Some e => Some e | None => b end.

(** The first error of a list of checks, in order. *)
Definition check_all {A} (f : A → option error) (l : list A) : option error :=
  foldr (λ x acc, first_error (f x) acc) None l.

Definition is_rowid_alias (cd : column_def) : bool :=
  col_pk cd && bool_decide (col_type cd = INTEGER).

(** The integers a column holds in the rows of a table. *)
Definition int_keys (c : string) (rs : list (gmap string sqlval)) : list Z :=
  omap (λ r, match r !! c with Some (SInt z) => Some z | _ => None end) rs.

(** The rowid SQLite gives a row inserted with NULL in an INTEGER PRIMARY
    KEY column: one more than the largest in the table, 1 in an empty one. *)
Definition next_rowid (c : string) (rs : list (gmap string sqlval)) : Z :=
  match int_keys c rs with
  | [] => 1
  | z :: zs => 1 + foldr Z.max z zs
  end.

Section Store.

(** SQLite's conversion of a value to the affinity of the column that
    receives it, where the storage class changes (a number into a TEXT
    column, a text or a real into an INTEGER column, ...).  It is code of the
    SQLite library; the loader's properties hold whatever it returns. *)
Variable convert : sqltype → sqlval → sqlval.

(** Column affinity: NULL is stored as NULL, and a value whose storage class
    is the column's is stored as it is. *)
Definition affinity (ty : sqltype) (v : sqlval) : sqlval :=
  match v, ty with
  | SNull, _ => SNull
  | SInt _, INTEGER => v
  | SText _, TEXT => v
  | SReal _, REAL => v
  | _, _ => convert ty v
  end.

(** The value an INSERT built from a frame with labels [cols] puts in the
    column [c] of type [ty] for the frame row [r]: a column the statement
    does not name gets NULL (no column has a default). *)
Definition stored_value (cols : list string) (r : gmap string value)
    (c : string) (ty : sqltype) : sqlval :=
  if decide (c ∈ cols)
  then affinity ty (adapt (cell r c))
  else SNull.

(** The same, with the rowid rule for an INTEGER PRIMARY KEY column. *)
Definition column_value (existing : list (gmap string sqlval))
    (cols : list string) (r : gmap string value) (cd : column_def)
  : error + sqlval :=
  let v := stored_value cols r (col_name cd) (col_type cd) in
  if is_rowid_alias cd then
    match v with
    | SNull => inr (SInt (next_rowid (col_name cd) existing))
    | SInt _ => inr v
    | _ => inl (IntegrityError "datatype mismatch")
    end
  else inr v.

Fixpoint build_row (existing : list (gmap string sqlval)) (cols : list string)
    (r : gmap string value) (cds : list column_def)
  : error + gmap string sqlval :=
  match cds with
  | [] => inr ∅
  | cd :: cds' =>
      match column_value existing cols r cd with
      | inl e => inl e
      | inr v =>
          match build_row existing cols r cds' with
          | inl e => inl e
          | inr m => inr (<[col_name cd := v]> m)
          end
      end
  end.

Definition check_not_null (tname : string) (sr : gmap string sqlval)
    (cd : column_def) : option error :=
  if col_not_null cd && bool_decide (sr !! col_name cd = Some SNull)
  then Some (IntegrityError
               ("NOT NULL constraint failed: " +:+ tname +:+ "." +:+ col_name cd))
  else None.

Definition check_in (sr : gmap string sqlval) (cd : column_def) : option error :=
  match col_check_in cd with
  | None => None
  | Some zs =>
      match sr !! col_name cd with
      | Some (SInt z) =>
          if decide (z ∈ zs) then None
          else Some (IntegrityError ("CHECK constraint failed: " +:+ col_name cd))
      | Some SNull | None => None
      | Some _ => Some (IntegrityError ("CHECK constraint failed: " +:+ col_name cd))
      end
  end.

Definition check_unique (tname : string) (existing : list (gmap string sqlval))
    (sr : gmap string sqlval) (cd : column_def) : option error :=
  if col_pk cd then
    match sr !! col_name cd with
    | Some SNull | None => None
    | Some v =>
        if decide (Some v ∈ (λ r, r !! col_name cd) <$> existing)
        then Some (IntegrityError
                     ("UNIQUE constraint failed: " +:+ tname +:+ "." +:+ col_name cd))
        else None
    end
  else None.

Definition check_foreign_key (db : gmap string Table) (sr : gmap string sqlval)
    (fk : foreign_key) : option error :=
  match sr !! fk_column fk with
  | Some SNull | None => None
  | Some v =>
      match db !! fk_table fk with
      | None => Some (OperationalError ("no such table: main." +:+ fk_table fk))
      | Some p =>
          if decide (Some v ∈ (λ r, r !! fk_parent fk) <$> t_rows p)
          then None
          else Some (IntegrityError "FOREIGN KEY constraint failed")
      end
  end.

(** One [INSERT INTO tname (cols) VALUES (...)] for the frame row [r]. *)
Definition insert_row (fk_on : bool) (tname : string) (cols : list string)
    (db : gmap string Table) (r : gmap string value)
  : error + gmap string Table :=
  match db !! tname with
  | None => inl (OperationalError ("no such table: " +:+ tname))
  | Some t =>
      let sch := t_schema t in
      match build_row (t_rows t) cols r (ts_columns sch) with
      | inl e => inl e
      | inr sr =>
          match
            first_error (check_all (check_not_null tname sr) (ts_columns sch))
           (first_error (check_all (check_in sr) (ts_columns sch))
           (first_error (check_all (check_unique tname (t_rows t) sr) (ts_columns sch))
                        (if fk_on
                         then check_all (check_foreign_key db sr) (ts_foreign_keys sch)
                         else None)))
          with
          | Some e => inl e
          | None => inr (<[tname := mkTable sch (t_rows t ++ [sr])]> db)
          end
      end
  end.

(** The rows of a frame, inserted one after the other; the first failure
    ends it. *)
Fixpoint insert_rows (fk_on : bool) (tname : string) (cols : list string)
    (db : gmap string Table) (rs : list (gmap string value))
  : error + gmap string Table :=
  match rs with
  | [] => inr db
  | r :: rs' =>
      match insert_row fk_on tname cols db r with
      | inl e => inl e
      | inr db' => insert_rows fk_on tname cols db' rs'
      end
  end.

Definition unknown_column (sch : table_schema) (c : string) : bool :=
  bool_decide (c ∉ col_name <$> ts_columns sch).

(** [df.to_sql(tname, conn, if_exists="append", index=False)] on the
    committed store: the new store when every row went in, the error
    otherwise (pandas rolls its transaction back, so the store stays as it
    was).  pandas runs no statement for a frame without rows.  For a table
    that does not exist pandas would create one from the frame's dtypes; the
    loader creates its five tables first and never gets there, and the model
    gives that case an error. *)
Definition insert_frame (fk_on : bool) (tname : string) (df : DataFrame)
    (db : gmap string Table) : error + gmap string Table :=
  match db !! tname with
  | None => inl (OperationalError ("no such table: " +:+ tname))
  | Some t =>
      match rows df with
      | [] => inr db
      | _ =>
          match filter (λ c, unknown_column (t_schema t) c) (columns df) with
          | c :: _ =>
              inl (OperationalError
                     ("table " +:+ tname +:+ " has no column named " +:+ c))
          | [] => insert_rows fk_on tname (columns df) db (rows df)
          end
      end
  end.

End Store.

(** ** The world the program runs in *)

(** A statement or call that reaches the connection, kept as a ghost trace. *)
Inductive stmt : Type :=
  | PragmaForeignKeysOn
  | DropTableIfExists (t : string)
  | CreateTable (t : string)
  | ToSql (t : string)
  | SelectCount (t : string).

#[global] Instance stmt_eq_dec : EqDecision stmt.
Proof. solve_decision. Defined.

Record world : Type := mkWorld {
  w_files : gmap string DataFrame;       (* path ↦ what read_csv yields *)
  w_db : option (gmap string Table);     (* the file at DB_PATH, if any *)
  w_fk : bool;                           (* foreign_keys of the connection *)
  w_heap : list DataFrame;               (* the DataFrame objects *)
  w_out : list string;                   (* the lines printed so far *)
  w_log : list stmt;                     (* the statements run so far *)
}.

Definition set_db (d : option (gmap string Table)) (w : world) : world :=
  mkWorld (w_files w) d (w_fk w) (w_heap w) (w_out w) (w_log w).
Definition set_fk (b : bool) (w : world) : world :=
  mkWorld (w_files w) (w_db w) b (w_heap w) (w_out w) (w_log w).
Definition set_heap (h : list DataFrame) (w : world) : world :=
  mkWorld (w_files w) (w_db w) (w_fk w) h (w_out w) (w_log w).
Definition add_out (s : string) (w : world) : world :=
  mkWorld (w_files w) (w_db w) (w_fk w) (w_heap w) (w_out w ++ [s]) (w_log w).
Definition add_log (s : stmt) (w : world) : world :=
  mkWorld (w_files w) (w_db w) (w_fk w) (w_heap w) (w_out w) (w_log w ++ [s]).

(** A computation: it ends with a value or with an exception, and in both
    cases leaves a world behind. *)
Definition M (A : Type) : Type := world → (error + A) * world.

Definition ret {A} (x : A) : M A := λ w, (inr x, w).
Definition raise {A} (e : error) : M A := λ w, (inl e, w).
Definition bind {A B} (c : M A) (k : A → M B) : M B :=
  λ w, match c w with
       | (inl e, w') => (inl e, w')
       | (inr x, w') => k x w'
       end.

Declare Scope py_scope.
Delimit Scope py_scope with py.
Notation "'let*' x ':=' c 'in' k" := (bind c (λ x, k))
  (at level 10, x name, c at level 100, k at level 200) : py_scope.
Notation "c '>>' k" := (bind c (λ _, k))
  (at level 100, k at level 200, right associativity) : py_scope.
Local Open Scope py_scope.

(** [for x in l: body(x)] *)
Fixpoint for_each {A} (l : list A) (body : A → M unit) : M unit :=
  match l with
  | [] => ret tt
  | x :: l' => body x >> for_each l' body
  end.

Definition print (s : string) : M unit := λ w, (inr tt, add_out s w).

(** *** DataFrame objects *)

Definition loc : Type := nat.

Definition alloc (df : DataFrame) : M loc :=
  λ w, (inr (length (w_heap w)), set_heap (w_heap w ++ [df]) w).

Definition deref (l : loc) : M DataFrame :=
  λ w, match w_heap w !! l with
       | Some df => (inr df, w)
       | None => (inl DanglingReference, w)
       end.

Definition assign (l : loc) (df : DataFrame) : M unit :=
  λ w, (inr tt, set_heap (<[l := df]> (w_heap w)) w).

Definition lift {A} (r : error + A) : M A :=
  match r with inl e => raise e | inr x => ret x end.

(** [df.copy()]: a new object with the same content. *)
Definition df_copy (df : loc) : M loc :=
  let* d := deref df in alloc d.

(** [df[column]] *)
Definition df_getitem (df : loc) (column : string) : M (list value) :=
  let* d := deref df in lift (Series.getitem d column).

(** [df[column] = s]: the object [df] refers to is changed in place. *)
Definition df_setitem (df : loc) (column : string) (s : list value) : M unit :=
  let* d := deref df in
  let* d' := lift (Series.setitem d column s) in
  assign df d'.

(** ** The program *)

Definition normalize_booleans (df : loc) (column : string) : M loc :=
  let* df := df_copy df in
  let* s := df_getitem df column in
  df_setitem df column
    (Series.astype_int
       (Series.fillna 0
          (Series.map_dict BOOL_MAP
             (Series.str_upper
                (Series.str_strip
                   (Series.astype_str s)))))) >>
  ret df.

Definition DATA_DIR : string := "data".
Definition DB_PATH : string := "ecom.db".

(** [DATA_DIR / f"{name}.csv"], on a POSIX system. *)
Definition csv_path (name : string) : string :=
  DATA_DIR +:+ "/" +:+ name +:+ ".csv".

Definition path_exists (path : string) : M bool :=
  λ w, (inr (bool_decide (is_Some (w_files w !! path))), w).

(** [pd.read_csv(path)]: a new frame with the content of the file. *)
Definition read_csv (path : string) : M loc :=
  λ w, match w_files w !! path with
       | Some d => alloc d w
       | None =>
           (inl (FileNotFoundError
                   ("[Errno 2] No such file or directory: '" +:+ path +:+ "'")), w)
       end.

Definition load_csv (name : string) : M loc :=
  let path := csv_path name in
  let* present := path_exists path in
  if negb present then raise (FileNotFoundError ("Missing CSV: " +:+ path))
  else
    let* df := read_csv path in
    if decide (name = "products") then normalize_booleans df "in_stock"
    else ret df.

Section Main.

Variable convert : sqltype → sqlval → sqlval.

(** The store a connection works on: SQLite makes the file when there is
    none. *)
Definition current_db (w : world) : gmap string Table := default ∅ (w_db w).

(** [DB_PATH.unlink(missing_ok=True)] *)
Definition unlink_db : M unit := λ w, (inr tt, set_db None w).

(** [sqlite3.connect(DB_PATH)]: foreign keys are off in a new connection. *)
Definition connect : M unit :=
  λ w, (inr tt, set_fk false (set_db (Some (current_db w)) w)).

(** [conn.execute("PRAGMA foreign_keys = ON;")] *)
Definition pragma_foreign_keys_on : M unit :=
  λ w, (inr tt, add_log PragmaForeignKeysOn (set_fk true w)).

(** [conn.execute(f"DROP TABLE IF EXISTS {table};")]; on the fresh store of
    this program no row is there to be deleted with the table. *)
Definition drop_table_if_exists (table : string) : M unit :=
  λ w, (inr tt,
        add_log (DropTableIfExists table)
          (set_db (Some (delete table (current_db w))) w)).

(** [conn.execute(schema)] for a [CREATE TABLE] statement. *)
Definition create_table (table : string) (schema : table_schema) : M unit :=
  λ w, let w' := add_log (CreateTable table) w in
       match current_db w !! table with
       | Some _ =>
           (inl (OperationalError ("table " +:+ table +:+ " already exists")), w')
       | None =>
           (inr tt, set_db (Some (<[table := mkTable schema []]> (current_db w))) w')
       end.

(** [df.to_sql(table, conn, if_exists="append", index=False)] *)
Definition to_sql (df : loc) (table : string) : M unit :=
  let* d := deref df in
  λ w, let w' := add_log (ToSql table) w in
       match insert_frame convert (w_fk w) table d (current_db w) with
       | inl e => (inl e, w')
       | inr db' => (inr tt, set_db (Some db') w')
       end.

(** [cursor.execute(f"SELECT COUNT(*) FROM {table};")] and
    [cursor.fetchone()[0]] *)
Definition select_count (table : string) : M nat :=
  λ w, let w' := add_log (SelectCount table) w in
       match current_db w !! table with
       | Some t => (inr (length (t_rows t)), w')
       | None => (inl (OperationalError ("no such table: " +:+ table)), w')
       end.

(** The three loops of [main]. *)
Definition create_tables : M unit :=
  for_each TABLE_SCHEMAS (λ '(table, schema),
    drop_table_if_exists table >> create_table table schema).

Definition load_tables (tables : list string) : M unit :=
  for_each tables (λ table,
    let* df := load_csv table in to_sql df table).

Definition report_line (table : string) (count : nat) : string :=
  "- " +:+ table +:+ ": " +:+ pretty count.

Definition report : M unit :=
  print "Row counts:" >>
  for_each TABLE_SCHEMAS (λ '(table, _),
    let* count := select_count table in
    print (report_line table count)).

Definition main : M unit :=
  unlink_db >>
  connect >>
  pragma_foreign_keys_on >>
  create_tables >>
  load_tables LOAD_ORDER >>
  report.

End Main.

(** ** Definitions used to state the properties *)

(** What the specification says a text maps to. *)
Definition spec_boolean (t : string) : Z :=
  if decide (t = "TRUE") then 1
  else if decide (t = "FALSE") then 0
  else 0.

(** The text the normalizer looks up for a cell: its textual form, stripped
    and upper-cased. *)
Definition canonical_text (v : value) : string :=
  PyStr.upper (PyStr.strip (py_str v)).

(** The frame [normalize_booleans] builds from the content [d]. *)
Definition normalized (d : DataFrame) (column : string) : DataFrame :=
  {| columns := columns d;
     rows := (λ r, <[column := VInt (spec_boolean (canonical_text (cell r column)))]> r)
               <$> rows d |}.


(** The frame [load_csv name] returns for the files [files], or the
    exception it raises. *)
Definition loaded_frame (files : gmap string DataFrame) (name : string)
  : error + DataFrame :=
  match files !! csv_path name with
  | None => inl (FileNotFoundError ("Missing CSV: " +:+ csv_path name))
  | Some d =>
      if decide (name = "products") then
        if decide ("in_stock" ∈ columns d) then inr (normalized d "in_stock")
        else inl (KeyError "in_stock")
      else inr d
  end.

(** The store right after the tables are created. *)
Definition fresh_db : gmap string Table :=
  list_to_map ((λ '(table, schema), (table, mkTable schema [])) <$> TABLE_SCHEMAS).

(** The statements [main] runs before it loads the first file. *)
Definition init_log : list stmt :=
  PragmaForeignKeysOn ::
  concat ((λ '(table, _), [DropTableIfExists table; CreateTable table])
            <$> TABLE_SCHEMAS).

Definition table_count (db : gmap string Table) (table : string) : nat :=
  from_option (λ t, length (t_rows t)) 0%nat (db !! table).

(** The lines of the report for a store, and the statements that count. *)
Definition report_lines (db : gmap string Table) : list string :=
  "Row counts:" ::
  ((λ '(table, _), report_line table (table_count db table)) <$> TABLE_SCHEMAS).

Definition report_log : list stmt :=
  (λ '(table, _), SelectCount table) <$> TABLE_SCHEMAS.

Definition wf_schema (sch : table_schema) : Prop :=
  NoDup (col_name <$> ts_columns sch).

(** The store after a list of tables is created in a store. *)
Definition created (schemas : list (string * table_schema))
    (db : gmap string Table) : gmap string Table :=
  foldl (λ db '(table, schema), <[table := mkTable schema []]> db) db schemas.

Definition created_log (schemas : list (string * table_schema)) : list stmt :=
  concat ((λ '(table, _), [DropTableIfExists table; CreateTable table]) <$> schemas).

Section Outcome.

Variable convert : sqltype → sqlval → sqlval.

(** The loading loop as a function of the files and the store alone: the way
    it ends, the store it leaves and the calls that reached the connection. *)
Fixpoint load_pure (files : gmap string DataFrame) (fk_on : bool)
    (tables : list string) (db : gmap string Table)
  : (error + unit) * gmap string Table * list stmt :=
  match tables with
  | [] => (inr tt, db, [])
  | table :: tables' =>
      match loaded_frame files table with
      | inl e => (inl e, db, [])
      | inr d =>
          match insert_frame convert fk_on table d db with
          | inl e => (inl e, db, [ToSql table])
          | inr db' =>
              let '(r, db'', lg) := load_pure files fk_on tables' db' in
              (r, db'', ToSql table :: lg)
          end
      end
  end.

(** A stored row holds, in every column that is not the rowid, the value the
    INSERT gave it for the frame row. *)
Definition stored_as (sch : table_schema) (cols : list string)
    (r : gmap string value) (sr : gmap string sqlval) : Prop :=
  ∀ cd, cd ∈ ts_columns sch → is_rowid_alias cd = false →
    sr !! col_name cd = Some (stored_value convert cols r (col_name cd) (col_type cd)).

(** The checks a row passed when its INSERT went through. *)
Definition row_passed (fk_on : bool) (tname : string) (db : gmap string Table)
    (tab : Table) (cols : list string) (r : gmap string value)
    (sr : gmap string sqlval) : Prop :=
  (wf_schema (t_schema tab) → stored_as (t_schema tab) cols r sr) ∧
  (∀ cd, cd ∈ ts_columns (t_schema tab) → check_not_null tname sr cd = None) ∧
  (∀ cd, cd ∈ ts_columns (t_schema tab) → check_in sr cd = None) ∧
  (fk_on = true → ∀ fk, fk ∈ ts_foreign_keys (t_schema tab) →
     fk_table fk ≠ tname → check_foreign_key db sr fk = None).

(** [main] up to and including the loading of [tables]. *)
Definition run_until (tables : list string) : M unit :=
  unlink_db >>
  connect >>
  pragma_foreign_keys_on >>
  create_tables >>
  load_tables convert tables.

End Outcome.

(** Every table of [TABLE_SCHEMAS] is in the store, with its schema. *)
Definition schemas_kept (db : gmap string Table) : Prop :=
  ∀ t sch, (t, sch) ∈ TABLE_SCHEMAS → ∃ rs, db !! t = Some (mkTable sch rs).

(** The number of data rows of the file of a table (0 for a missing file). *)
Definition csv_rows (files : gmap string DataFrame) (table : string) : nat :=
  from_option (λ d, length (rows d)) 0%nat (files !! csv_path table).

(** The schema [TABLE_SCHEMAS] gives a table (the empty one for a name it
    does not have), and the names of its columns. *)
Definition schema_of (table : string) : table_schema :=
  default (mkSchema [] [])
    ((list_to_map TABLE_SCHEMAS : gmap string table_schema) !! table).


(** The tables a trace creates and loads, in the order of the trace. *)
Definition created_tables (lg : list stmt) : list string :=
  omap (λ s, match s with CreateTable t => Some t | _ => None end) lg.
Definition loaded_tables (lg : list stmt) : list string :=
  omap (λ s, match s with ToSql t => Some t | _ => None end) lg.

(** Every table that a table of the list refers to stands before it. *)
Definition parents_first (schemas : list (string * table_schema)) : Prop :=
  ∀ i t sch fk,
    schemas !! i = Some (t, sch) →
    fk ∈ ts_foreign_keys sch →
    ∃ j, (j < i)%nat ∧ schemas.*1 !! j = Some (fk_table fk).

Section Pure.

Variable convert : sqltype → sqlval → sqlval.

(** A whole run as a function of the files: the way it ends, the store it
    leaves, the lines it prints and the statements it runs. *)
Definition main_pure (files : gmap string DataFrame)
  : (error + unit) * gmap string Table * list string * list stmt :=
  match load_pure convert files true LOAD_ORDER fresh_db with
  | (inl e, db, lg) => (inl e, db, [], init_log ++ lg)
  | (inr _, db, lg) => (inr tt, db, report_lines db, init_log ++ lg ++ report_log)
  end.

End Pure.

(** ** Sample data *)

Module Sample.

Definition row (l : list (string * value)) : gmap string value := list_to_map l.

Definition customers : DataFrame :=
  mkDataFrame
    ["customer_id"; "name"; "email"; "phone"; "created_at"; "city"; "state"]
    [ row [("customer_id", VInt 1); ("name", VStr "Asha"); ("email", VStr "asha@example.com");
           ("phone", VStr "555-0101"); ("created_at", VStr "2024-01-05");
           ("city", VStr "Pune"); ("state", VStr "MH")] ].

Definition products : DataFrame :=
  mkDataFrame
    ["product_id"; "product_name"; "category"; "price"; "in_stock"; "added_at"]
    [ row [("product_id", VStr "P1"); ("product_name", VStr "Pen"); ("category", VStr "Office");
           ("price", VFloat "1.5"); ("in_stock", VStr " false "); ("added_at", VStr "2024-01-02")];
      row [("product_id", VStr "P2"); ("product_name", VStr "Cup"); ("category", VStr "Home");
           ("price", VFloat "3.0"); ("in_stock", VStr "true"); ("added_at", VStr "2024-01-03")] ].

Definition orders : DataFrame :=
  mkDataFrame
    ["order_id"; "customer_id"; "order_date"; "total_amount"; "payment_method"; "order_status"]
    [ row [("order_id", VStr "O1"); ("customer_id", VInt 1); ("order_date", VStr "2024-02-01");
           ("total_amount", VFloat "4.5"); ("payment_method", VStr "card");
           ("order_status", VStr "paid")] ].

Definition order_items : DataFrame :=
  mkDataFrame
    ["item_id"; "order_id"; "product_id"; "quantity"; "item_price"]
    [ row [("item_id", VStr "I1"); ("order_id", VStr "O1"); ("product_id", VStr "P1");
           ("quantity", VInt 3); ("item_price", VFloat "1.5")] ].


Definition reviews : DataFrame :=
  mkDataFrame
    ["review_id"; "customer_id"; "product_id"; "rating"; "comment"; "review_date"]
    [ row [("review_id", VStr "R1"); ("customer_id", VInt 1); ("product_id", VStr "P2");
           ("rating", VInt 5); ("comment", VStr "good"); ("review_date", VStr "2024-03-01")] ].

Definition all_files : gmap string DataFrame :=
  list_to_map
    [ ("data/customers.csv", customers); ("data/products.csv", products);
      ("data/orders.csv", orders); ("data/order_items.csv", order_items);
      ("data/reviews.csv", reviews) ].

Definition world_of (files : gmap string DataFrame) : world :=
  mkWorld files None false [] [] [].


(** [reviews.csv] is missing. *)
Definition no_reviews : world := world_of (delete "data/reviews.csv" all_files).



(** A world that holds the frame [products] as object 0. *)
Definition with_products : world := mkWorld ∅ None false [products] [] [].

(** A conversion to the column's affinity: a number that goes into a TEXT
    column becomes its text, everything else is kept. *)
Definition convert (ty : sqltype) (v : sqlval) : sqlval :=
  match ty, v with
  | TEXT, SInt z => SText (pretty z)
  | TEXT, SReal r => SText r
  | _, _ => v
  end.

End Sample.

(** ** Definitions used to state further properties *)



(** A character that is neither white space nor, upper-cased, a "T" or an
    "F": no text that starts with it reads "TRUE" or "FALSE". *)
Definition plain_start (a : ascii) : bool :=
  negb (PyStr.is_space a)
  && negb (Ascii.eqb (PyStr.upper_char a) "T")
  && negb (Ascii.eqb (PyStr.upper_char a) "F").

(** No two rows of a table hold the same value, other than NULL, in a
    primary-key column. *)
Definition unique_keys (sch : table_schema) (rs : list (gmap string sqlval)) : Prop :=
  ∀ cd i j sr1 sr2 v,
    cd ∈ ts_columns sch → col_pk cd = true →
    rs !! i = Some sr1 → rs !! j = Some sr2 →
    sr1 !! col_name cd = Some v → sr2 !! col_name cd = Some v →
    v ≠ SNull →
    i = j.

(** A row holds a value in every column of the table, not NULL where the
    column is NOT NULL, and NULL or in the list where the column has a CHECK. *)
Definition row_valid (sch : table_schema) (sr : gmap string sqlval) : Prop :=
  ∀ cd, cd ∈ ts_columns sch →
    ∃ v, sr !! col_name cd = Some v ∧
         (col_not_null cd = true → v ≠ SNull) ∧
         (∀ zs, col_check_in cd = Some zs → v = SNull ∨ ∃ z, v = SInt z ∧ z ∈ zs).

Definition rows_valid (sch : table_schema) (rs : list (gmap string sqlval)) : Prop :=
  ∀ sr, sr ∈ rs → row_valid sch sr.

(** A property of the rows of a table holds in every table of a store. *)
Definition every_table (P : table_schema → list (gmap string sqlval) → Prop)
    (db : gmap string Table) : Prop :=
  ∀ t tab, db !! t = Some tab → P (t_schema tab) (t_rows tab).
(** * Properties *)

(** ** The normalizer *)

Lemma BOOL_MAP_lookup (t : string) :
  default 0 (BOOL_MAP !! t) = spec_boolean t.
Proof.
  unfold BOOL_MAP, spec_boolean.
  destruct (decide (t = "TRUE")) as [->|Ht].
  - by rewrite lookup_insert_eq.
  - rewrite lookup_insert_ne by done.
    destruct (decide (t = "FALSE")) as [->|Hf].
    + by rewrite lookup_insert_eq.
    + rewrite lookup_insert_ne by done. by rewrite lookup_empty.
Qed.

Lemma pipeline_fmap (s : list value) :
  Series.astype_int
    (Series.fillna 0
       (Series.map_dict BOOL_MAP
          (Series.str_upper (Series.str_strip (Series.astype_str s)))))
  = (λ v, VInt (spec_boolean (canonical_text v))) <$> s.
Proof.
  unfold Series.astype_int, Series.fillna, Series.map_dict, Series.str_upper,
    Series.str_strip, Series.astype_str.
  rewrite <- !list_fmap_compose.
  apply list_fmap_ext. intros i v _. simpl.
  by rewrite BOOL_MAP_lookup.
Qed.

Lemma zip_with_fmap_same {A B C} (f : A → B → C) (g : A → B) (l : list A) :
  zip_with f l (g <$> l) = (λ x, f x (g x)) <$> l.
Proof. induction l as [|x l IH]; csimpl; [done | by f_equal]. Qed.

Lemma setitem_pipeline (d : DataFrame) (column : string) :
  column ∈ columns d →
  Series.setitem d column
    ((λ v, VInt (spec_boolean (canonical_text v)))
       <$> ((λ r, cell r column) <$> rows d))
  = inr (normalized d column).
Proof.
  intros Hin. unfold Series.setitem.
  rewrite !length_fmap. rewrite decide_True by done.
  rewrite decide_True by done.
  rewrite <- list_fmap_compose. by rewrite zip_with_fmap_same.
Qed.

Lemma heap_snoc_lookup (h : list DataFrame) (d : DataFrame) :
  (h ++ [d]) !! length h = Some d.
Proof. by rewrite list_lookup_middle. Qed.

Lemma heap_snoc_insert (h : list DataFrame) (d d' : DataFrame) :
  <[length h := d']> (h ++ [d]) = h ++ [d'].
Proof.
  replace (length h) with (length h + 0)%nat at 1 by lia.
  by rewrite insert_app_r.
Qed.

(** A run of the normalizer on a frame that has the column: one new object,
    holding the normalized content. *)
Lemma normalize_booleans_run (w : world) (df : loc) (d : DataFrame) (column : string) :
  w_heap w !! df = Some d →
  column ∈ columns d →
  normalize_booleans df column w
  = (inr (length (w_heap w)), set_heap (w_heap w ++ [normalized d column]) w).
Proof.
  intros Hdf Hin.
  unfold normalize_booleans, df_copy, df_getitem, df_setitem, bind, deref, alloc,
    assign, lift, ret. simpl.
  rewrite Hdf. simpl. rewrite heap_snoc_lookup.
  unfold Series.getitem. rewrite decide_True by done. simpl.
  rewrite heap_snoc_lookup. rewrite pipeline_fmap.
  rewrite setitem_pipeline by done. simpl.
  unfold set_heap. simpl. by rewrite heap_snoc_insert.
Qed.

(** A run on a frame that lacks the column: the copy is made, then the
    lookup of the column raises. *)
Lemma normalize_booleans_missing (w : world) (df : loc) (d : DataFrame) (column : string) :
  w_heap w !! df = Some d →
  column ∉ columns d →
  normalize_booleans df column w
  = (inl (KeyError column), set_heap (w_heap w ++ [d]) w).
Proof.
  intros Hdf Hin.
  unfold normalize_booleans, df_copy, df_getitem, df_setitem, bind, deref, alloc,
    assign, lift, ret, raise. simpl.
  rewrite Hdf. simpl. rewrite heap_snoc_lookup.
  unfold Series.getitem. by rewrite decide_False by done.
Qed.

Lemma normalized_lookup (d : DataFrame) (column : string) (i : nat)
    (r : gmap string value) :
  rows d !! i = Some r →
  rows (normalized d column) !! i
  = Some (<[column := VInt (spec_boolean (canonical_text (cell r column)))]> r).
Proof. intros Hr. simpl. by rewrite list_lookup_fmap, Hr. Qed.

(** ** Claims about the normalizer *)



Lemma heap_snoc_keeps (h : list DataFrame) (x : DataFrame) (l : loc) (d : DataFrame) :
  h !! l = Some d → (h ++ [x]) !! l = Some d.
Proof. apply lookup_app_l_Some. Qed.

(** C8. [normalize_booleans] returns a new dataset: a new object, with the
    columns, the row count and the row order of the input and, in every row,
    the input's cells in all columns but the transformed one.  The input
    object, like every object that was there, keeps its content. *)
Theorem normalize_booleans_frame (w : world) (df : loc) (d : DataFrame)
    (column : string) :
  w_heap w !! df = Some d →
  column ∈ columns d →
  ∃ df' w' d',
    normalize_booleans df column w = (inr df', w') ∧
    w_heap w' !! df' = Some d' ∧
    df' ≠ df ∧
    w_heap w !! df' = None ∧
    w_heap w' !! df = Some d ∧
    (∀ l x, w_heap w !! l = Some x → w_heap w' !! l = Some x) ∧
    columns d' = columns d ∧
    length (rows d') = length (rows d) ∧
    (∀ i r, rows d !! i = Some r →
       ∃ r', rows d' !! i = Some r' ∧ ∀ c, c ≠ column → r' !! c = r !! c) ∧
    w_files w' = w_files w ∧ w_db w' = w_db w ∧ w_out w' = w_out w.
Proof.
  intros Hdf Hin.
  exists (length (w_heap w)), (set_heap (w_heap w ++ [normalized d column]) w),
    (normalized d column).
  split; [by apply normalize_booleans_run |].
  split; [simpl; apply heap_snoc_lookup |].
  split; [apply lookup_lt_Some in Hdf; lia |].
  split; [by apply lookup_ge_None_2 |].
  split; [simpl; by apply heap_snoc_keeps |].
  split; [intros l x Hl; simpl; by apply heap_snoc_keeps |].
  split; [done |].
  split; [simpl; by rewrite length_fmap |].
  split; [| done].
  intros i r Hr. eexists. split; [by apply normalized_lookup |].
  intros c Hc. by rewrite lookup_insert_ne.
Qed.

Lemma normalize_booleans_frame_witness :
  ∃ df' w' d',
    normalize_booleans 0%nat "in_stock" Sample.with_products = (inr df', w') ∧
    w_heap w' !! df' = Some d' ∧
    df' ≠ 0%nat ∧
    w_heap Sample.with_products !! df' = None ∧
    w_heap w' !! 0%nat = Some Sample.products ∧
    (∀ l x, w_heap Sample.with_products !! l = Some x → w_heap w' !! l = Some x) ∧
    columns d' = columns Sample.products ∧
    length (rows d') = length (rows Sample.products) ∧
    (∀ i r, rows Sample.products !! i = Some r →
       ∃ r', rows d' !! i = Some r' ∧ ∀ c, c ≠ "in_stock" → r' !! c = r !! c) ∧
    w_files w' = w_files Sample.with_products ∧
    w_db w' = w_db Sample.with_products ∧
    w_out w' = w_out Sample.with_products.
Proof.
  apply (normalize_booleans_frame Sample.with_products 0%nat Sample.products "in_stock").
  - reflexivity.
  - apply (bool_decide_unpack _). vm_compute. exact I.
Defined.

(** C10. On a dataset that lacks the column, [normalize_booleans] raises
    [KeyError] and returns no dataset; the input object, like every object
    that was there, keeps its content. *)
Theorem normalize_booleans_absent (w : world) (df : loc) (d : DataFrame)
    (column : string) :
  w_heap w !! df = Some d →
  column ∉ columns d →
  ∃ w',
    normalize_booleans df column w = (inl (KeyError column), w') ∧
    w_heap w' !! df = Some d ∧
    (∀ l x, w_heap w !! l = Some x → w_heap w' !! l = Some x) ∧
    w_files w' = w_files w ∧ w_db w' = w_db w ∧ w_out w' = w_out w.
Proof.
  intros Hdf Hin.
  exists (set_heap (w_heap w ++ [d]) w).
  split; [by apply normalize_booleans_missing |].
  split; [simpl; by apply heap_snoc_keeps |].
  split; [intros l x Hl; simpl; by apply heap_snoc_keeps |].
  done.
Qed.

Lemma normalize_booleans_absent_witness :
  ∃ w',
    normalize_booleans 0%nat "available" Sample.with_products
    = (inl (KeyError "available"), w') ∧
    w_heap w' !! 0%nat = Some Sample.products ∧
    (∀ l x, w_heap Sample.with_products !! l = Some x → w_heap w' !! l = Some x) ∧
    w_files w' = w_files Sample.with_products ∧
    w_db w' = w_db Sample.with_products ∧
    w_out w' = w_out Sample.with_products.
Proof.
  apply (normalize_booleans_absent Sample.with_products 0%nat Sample.products "available").
  - reflexivity.
  - apply (bool_decide_unpack _). vm_compute. exact I.
Defined.

(** ** The CSV loader *)

Lemma set_heap_same (w : world) : set_heap (w_heap w ++ []) w = w.
Proof. destruct w. unfold set_heap. simpl. by rewrite app_nil_r. Qed.

Lemma path_exists_run (path : string) (w : world) :
  path_exists path w = (inr (bool_decide (is_Some (w_files w !! path))), w).
Proof. done. Qed.

(** [load_csv] adds objects to the heap and touches nothing else; what it
    returns or raises is [loaded_frame] of the files. *)
Lemma load_csv_run (name : string) (w : world) :
  ∃ h',
    match loaded_frame (w_files w) name with
    | inl e => load_csv name w = (inl e, set_heap (w_heap w ++ h') w)
    | inr d =>
        ∃ l, load_csv name w = (inr l, set_heap (w_heap w ++ h') w) ∧
             (w_heap w ++ h') !! l = Some d
    end.
Proof.
  unfold loaded_frame, load_csv, bind. rewrite path_exists_run.
  destruct (w_files w !! csv_path name) as [d|] eqn:Hfile.
  - rewrite bool_decide_true by eauto. simpl.
    unfold read_csv. rewrite Hfile. unfold alloc.
    destruct (decide (name = "products")) as [->|Hname].
    + destruct (decide ("in_stock" ∈ columns d)) as [Hin|Hin].
      * exists [d; normalized d "in_stock"].
        exists (length (w_heap w ++ [d])).
        erewrite normalize_booleans_run; [| apply heap_snoc_lookup | done].
        simpl. unfold set_heap. simpl. rewrite <- app_assoc. simpl.
        split; [done |].
        change (w_heap w ++ [d; normalized d "in_stock"])
          with (w_heap w ++ [d] ++ [normalized d "in_stock"]).
        rewrite app_assoc. apply heap_snoc_lookup.
      * exists [d; d].
        erewrite normalize_booleans_missing; [| apply heap_snoc_lookup | done].
        simpl. unfold set_heap. simpl. by rewrite <- app_assoc.
    + exists [d]. exists (length (w_heap w)). unfold ret.
      split; [done | apply heap_snoc_lookup].
  - rewrite bool_decide_false by (intros [? ?]; done). simpl.
    exists []. unfold raise. by rewrite set_heap_same.
Qed.





(** ** The store *)

Lemma first_error_None (a b : option error) :
  first_error a b = None ↔ a = None ∧ b = None.
Proof.
  destruct a; simpl.
  - split; [done | by intros [? ?]].
  - split; [done | by intros [_ ?]].
Qed.


Lemma check_all_None {A} (f : A → option error) (l : list A) :
  check_all f l = None ↔ ∀ x, x ∈ l → f x = None.
Proof.
  induction l as [|x l IH]; simpl.
  - split; [intros _ y Hy; by apply elem_of_nil in Hy | done].
  - rewrite first_error_None, IH. split.
    + intros [Hx Hl] y Hy. apply elem_of_cons in Hy as [->|Hy]; auto.
    + intros Hall. split; [apply Hall; left | intros y Hy; apply Hall; by right].
Qed.


Section StoreFacts.

Variable convert : sqltype → sqlval → sqlval.

Lemma column_value_plain existing cols r cd v :
  is_rowid_alias cd = false →
  column_value convert existing cols r cd = inr v →
  v = stored_value convert cols r (col_name cd) (col_type cd).
Proof. unfold column_value. intros ->. by intros [= <-]. Qed.



Lemma build_row_lookup existing cols r cds sr :
  build_row convert existing cols r cds = inr sr →
  NoDup (col_name <$> cds) →
  ∀ cd, cd ∈ cds →
    ∃ v, column_value convert existing cols r cd = inr v ∧
         sr !! col_name cd = Some v.
Proof.
  revert sr. induction cds as [|cd cds IH]; simpl; intros sr Hb Hnd cd' Hcd'.
  { by apply elem_of_nil in Hcd'. }
  destruct (column_value _ _ _ _ cd) as [e|v] eqn:Hcv; [done |].
  destruct (build_row _ _ _ _ cds) as [e|m] eqn:Hm; [done |].
  injection Hb as <-. apply NoDup_cons in Hnd as [Hnotin Hnd].
  apply elem_of_cons in Hcd' as [->|Hcd'].
  - exists v. by rewrite lookup_insert_eq.
  - destruct (IH m eq_refl Hnd cd' Hcd') as (v' & Hv' & Hlook).
    exists v'. split; [done |].
    rewrite lookup_insert_ne; [done |].
    intros Heq. apply Hnotin. rewrite Heq. by apply list_elem_of_fmap_2.
Qed.

Lemma insert_row_inv fk_on tname cols db r db' :
  insert_row convert fk_on tname cols db r = inr db' →
  ∃ tab sr,
    db !! tname = Some tab ∧
    db' = <[tname := mkTable (t_schema tab) (t_rows tab ++ [sr])]> db ∧
    row_passed convert fk_on tname db tab cols r sr.
Proof.
  unfold insert_row. destruct (db !! tname) as [tab|] eqn:Htab; [| done].
  destruct (build_row _ _ _ _ _) as [e|sr] eqn:Hsr; [done |].
  destruct (first_error _ _) eqn:Hchk; [done |]. intros [= <-].
  exists tab, sr. split; [done |]. split; [done |].
  apply first_error_None in Hchk as [Hnn Hchk].
  apply first_error_None in Hchk as [Hin Hchk].
  apply first_error_None in Hchk as [_ Hfk].
  split; [| split; [| split]].
  - intros Hwf cd Hcd Halias.
    destruct (build_row_lookup _ _ _ _ _ Hsr Hwf cd Hcd) as (v & Hv & Hlook).
    by rewrite Hlook, (column_value_plain _ _ _ _ _ Halias Hv).
  - by apply check_all_None.
  - by apply check_all_None.
  - intros -> fk Hfk' _. by eapply check_all_None in Hfk.
Qed.



Lemma check_foreign_key_other db sr fk tname tab :
  fk_table fk ≠ tname →
  check_foreign_key (<[tname := tab]> db) sr fk = check_foreign_key db sr fk.
Proof.
  intros Hne. unfold check_foreign_key. by rewrite lookup_insert_ne.
Qed.

Lemma insert_rows_inv fk_on tname cols rs :
  ∀ db db' tab,
    db !! tname = Some tab →
    insert_rows convert fk_on tname cols db rs = inr db' →
    ∃ srs,
      db' = <[tname := mkTable (t_schema tab) (t_rows tab ++ srs)]> db ∧
      Forall2 (row_passed convert fk_on tname db tab cols) rs srs.
Proof.
  induction rs as [|r rs IH]; simpl; intros db db' tab Htab Hins.
  - injection Hins as <-. exists []. split; [| constructor].
    rewrite app_nil_r. destruct tab. simpl. by rewrite insert_id.
  - destruct (insert_row _ _ _ _ _ r) as [e|db1] eqn:Hrow; [done |].
    apply insert_row_inv in Hrow as (tab' & sr & Htab' & -> & Hpassed).
    rewrite Htab in Htab'. injection Htab' as <-.
    edestruct IH as (srs & -> & Hall); [apply lookup_insert_eq | exact Hins |].
    simpl in *. exists (sr :: srs). split.
    + rewrite insert_insert_eq. by rewrite <- app_assoc.
    + constructor; [done |].
      eapply Forall2_impl; [exact Hall |].
      intros r' sr' (H1 & H2 & H3 & H4). repeat split; try done.
      intros Hon fk Hfk Hne. rewrite <- (check_foreign_key_other db sr' fk tname
        (mkTable (t_schema tab) (t_rows tab ++ [sr]))) by done.
      by apply H4.
Qed.


Lemma insert_frame_inv fk_on tname d db db' :
  insert_frame convert fk_on tname d db = inr db' →
  ∃ tab srs,
    db !! tname = Some tab ∧
    db' = <[tname := mkTable (t_schema tab) (t_rows tab ++ srs)]> db ∧
    Forall2 (row_passed convert fk_on tname db tab (columns d)) (rows d) srs.
Proof.
  unfold insert_frame. destruct (db !! tname) as [tab|] eqn:Htab; [| done].
  destruct (rows d) as [|r rs] eqn:Hrows.
  - intros [= <-]. exists tab, []. split; [done |]. split; [| constructor].
    rewrite app_nil_r. destruct tab. simpl. by rewrite insert_id.
  - destruct (filter _ _); [| done]. intros Hins.
    destruct (insert_rows_inv _ _ _ _ _ _ _ Htab Hins) as (srs & -> & Hall).
    by exists tab, srs.
Qed.


End StoreFacts.

(** ** The runs of [main] *)

Section Runs.

Variable convert : sqltype → sqlval → sqlval.

Lemma world_eta (w : world) :
  w = mkWorld (w_files w) (w_db w) (w_fk w) (w_heap w ++ []) (w_out w) (w_log w ++ []).
Proof. destruct w. simpl. by rewrite !app_nil_r. Qed.

Lemma create_loop_run (schemas : list (string * table_schema)) :
  ∀ w db,
    w_db w = Some db →
    NoDup (schemas.*1) →
    (∀ t, t ∈ schemas.*1 → db !! t = None) →
    for_each schemas (λ '(table, schema),
      drop_table_if_exists table >> create_table table schema) w
    = (inr tt,
       mkWorld (w_files w) (Some (created schemas db)) (w_fk w) (w_heap w)
         (w_out w) (w_log w ++ created_log schemas)).
Proof.
  induction schemas as [|[t sch] schemas IH]; intros w db Hdb Hnd Hfree.
  - destruct w. simpl in *. subst. unfold ret, created_log. simpl.
    by rewrite app_nil_r.
  - apply NoDup_cons in Hnd as [Hnotin Hnd].
    assert (Hfree_t : db !! t = None) by (apply Hfree; left).
    simpl. unfold bind at 1. unfold bind at 1.
    unfold drop_table_if_exists, create_table, current_db. rewrite Hdb. simpl.
    rewrite delete_id by done. rewrite Hfree_t.
    erewrite IH; [| reflexivity | done |].
    + simpl. unfold created_log. simpl. by rewrite <- !app_assoc.
    + intros t' Ht'. rewrite lookup_insert_ne; [apply Hfree; by right |].
      intros ->. done.
Qed.

Lemma created_fresh : created TABLE_SCHEMAS ∅ = fresh_db.
Proof. by vm_compute. Qed.

Lemma init_run (w : world) :
  (unlink_db >> connect >> pragma_foreign_keys_on >> create_tables) w
  = (inr tt,
     mkWorld (w_files w) (Some fresh_db) true (w_heap w) (w_out w)
       (w_log w ++ init_log)).
Proof.
  unfold bind at 1. unfold unlink_db. unfold bind at 1. unfold connect.
  unfold bind at 1. unfold pragma_foreign_keys_on.
  unfold create_tables. erewrite (create_loop_run _ _ ∅); [| reflexivity | |].
  - rewrite created_fresh. simpl. unfold init_log. by rewrite <- app_assoc.
  - apply (bool_decide_unpack _). by vm_compute.
  - intros t _. apply lookup_empty.
Qed.

Lemma to_sql_run (l : loc) (d : DataFrame) (table : string) (w : world) :
  w_heap w !! l = Some d →
  to_sql convert l table w
  = match insert_frame convert (w_fk w) table d (current_db w) with
    | inl e => (inl e, add_log (ToSql table) w)
    | inr db' => (inr tt, set_db (Some db') (add_log (ToSql table) w))
    end.
Proof. intros Hl. unfold to_sql, bind, deref. by rewrite Hl. Qed.

Lemma load_tables_run (tables : list string) :
  ∀ w db,
    w_db w = Some db →
    ∃ h',
      load_tables convert tables w
      = (let '(r, db', lg) := load_pure convert (w_files w) (w_fk w) tables db in
         (r, mkWorld (w_files w) (Some db') (w_fk w) (w_heap w ++ h') (w_out w)
               (w_log w ++ lg))).
Proof.
  induction tables as [|t tables IH]; intros w db Hdb.
  - exists []. simpl. unfold ret. rewrite <- Hdb. by rewrite <- world_eta.
  - unfold load_tables in *. simpl.
    destruct (load_csv_run t w) as [h1 Hload].
    destruct (loaded_frame (w_files w) t) as [e|d].
    + exists h1. unfold bind. rewrite Hload. destruct w. simpl in *. subst.
      by rewrite app_nil_r.
    + destruct Hload as (l & Hload & Hl).
      unfold bind at 1. unfold bind at 1. rewrite Hload.
      rewrite (to_sql_run l d) by done.
      unfold current_db. simpl. rewrite Hdb. simpl.
      destruct (insert_frame _ _ _ _ _) as [e|db1].
      * exists h1. destruct w. simpl in *. by subst.
      * edestruct (IH (set_db (Some db1) (add_log (ToSql t)
                        (set_heap (w_heap w ++ h1) w))) db1) as [h2 Hrest];
          [done |].
        exists (h1 ++ h2). rewrite Hrest. simpl.
        destruct (load_pure _ _ _ _ _) as [[r db2] lg].
        by rewrite <- !app_assoc.
Qed.

Lemma count_loop_run (schemas : list (string * table_schema)) :
  ∀ w db,
    w_db w = Some db →
    (∀ t, t ∈ schemas.*1 → is_Some (db !! t)) →
    for_each schemas (λ '(table, _),
      let* count := select_count table in
      print (report_line table count)) w
    = (inr tt,
       mkWorld (w_files w) (Some db) (w_fk w) (w_heap w)
         (w_out w ++ ((λ '(table, _), report_line table (table_count db table))
                        <$> schemas))
         (w_log w ++ ((λ '(table, _), SelectCount table) <$> schemas))).
Proof.
  induction schemas as [|[t sch] schemas IH]; intros w db Hdb Hall.
  - destruct w. simpl in *. subst. unfold ret. by rewrite !app_nil_r.
  - destruct (Hall t) as [tab Htab]; [left |].
    simpl. unfold bind at 1. unfold bind at 1.
    unfold select_count, current_db. rewrite Hdb. simpl. rewrite Htab.
    unfold print. erewrite IH; [| simpl; exact Hdb |].
    + simpl. unfold table_count at 2. rewrite Htab. simpl.
      by rewrite <- !app_assoc.
    + intros t' Ht'. simpl. apply Hall. by right.
Qed.

Lemma report_run (w : world) (db : gmap string Table) :
  w_db w = Some db →
  (∀ t, t ∈ TABLE_SCHEMAS.*1 → is_Some (db !! t)) →
  report w
  = (inr tt,
     mkWorld (w_files w) (Some db) (w_fk w) (w_heap w)
       (w_out w ++ report_lines db) (w_log w ++ report_log)).
Proof.
  intros Hdb Hall. unfold report. unfold bind at 1. unfold print.
  erewrite count_loop_run; [| exact Hdb | exact Hall].
  simpl. unfold report_lines, report_log. by rewrite <- app_assoc.
Qed.

End Runs.

(** ** The loading loop as a function of the files *)

Lemma fresh_db_lookup (t : string) (sch : table_schema) :
  (t, sch) ∈ TABLE_SCHEMAS → fresh_db !! t = Some (mkTable sch []).
Proof.
  intros H. unfold TABLE_SCHEMAS in H.
  repeat (apply elem_of_cons in H as [[= -> ->]|H]; [by vm_compute |]).
  by apply elem_of_nil in H.
Qed.

Lemma fresh_db_kept : schemas_kept fresh_db.
Proof. intros t sch H. exists []. by apply fresh_db_lookup. Qed.

Lemma schemas_kept_exists (db : gmap string Table) :
  schemas_kept db → ∀ t, t ∈ TABLE_SCHEMAS.*1 → is_Some (db !! t).
Proof.
  intros Hk t Ht. apply list_elem_of_fmap in Ht as ([t' sch] & -> & Hin).
  destruct (Hk t' sch Hin) as [rs Hrs]. simpl. eauto.
Qed.

Lemma TABLE_SCHEMAS_wf (t : string) (sch : table_schema) :
  (t, sch) ∈ TABLE_SCHEMAS → wf_schema sch.
Proof.
  intros H. unfold TABLE_SCHEMAS in H.
  repeat (apply elem_of_cons in H as [[= -> ->]|H];
          [apply (bool_decide_unpack _); by vm_compute |]).
  by apply elem_of_nil in H.
Qed.


Lemma loaded_frame_file (files : gmap string DataFrame) (t : string) (d' : DataFrame) :
  loaded_frame files t = inr d' →
  ∃ d, files !! csv_path t = Some d ∧
       length (rows d') = length (rows d) ∧
       columns d' = columns d ∧
       (t ≠ "products" → d' = d) ∧
       (t = "products" → "in_stock" ∈ columns d ∧ d' = normalized d "in_stock").
Proof.
  unfold loaded_frame. destruct (files !! csv_path t) as [d|]; [| done].
  intros H. exists d. split; [done |].
  repeat case_decide; try done; injection H as <-; simpl;
    rewrite ?length_fmap; naive_solver.
Qed.

Section PureFacts.

Variable convert : sqltype → sqlval → sqlval.
Variable files : gmap string DataFrame.

Lemma insert_frame_kept fk_on tname d db db' :
  schemas_kept db →
  insert_frame convert fk_on tname d db = inr db' →
  schemas_kept db'.
Proof.
  intros Hk Hins t sch Hin.
  apply insert_frame_inv in Hins as (tab & srs & Htab & -> & _).
  destruct (Hk t sch Hin) as [rs Hrs].
  destruct (decide (tname = t)) as [->|Hne].
  - rewrite lookup_insert_eq. rewrite Htab in Hrs. injection Hrs as ->. simpl. eauto.
  - rewrite lookup_insert_ne by done. eauto.
Qed.

Lemma load_pure_kept fk_on tables :
  ∀ db r db' lg,
    schemas_kept db →
    load_pure convert files fk_on tables db = (r, db', lg) →
    schemas_kept db'.
Proof.
  induction tables as [|t tables IH]; simpl; intros db r db' lg Hk Hload.
  - by injection Hload as _ <- _.
  - destruct (loaded_frame files t) as [e|d]; [by injection Hload as _ <- _ |].
    destruct (insert_frame _ _ _ _ _) as [e|db1] eqn:Hins;
      [by injection Hload as _ <- _ |].
    destruct (load_pure _ _ _ _ db1) as [[r' db2] lg'] eqn:Hrest.
    injection Hload as _ <- _. eapply IH; [| exact Hrest].
    by eapply insert_frame_kept.
Qed.

Lemma load_pure_app fk_on tables1 tables2 :
  ∀ db,
    load_pure convert files fk_on (tables1 ++ tables2) db
    = match load_pure convert files fk_on tables1 db with
      | (inl e, db', lg) => (inl e, db', lg)
      | (inr _, db', lg) =>
          let '(r, db'', lg2) := load_pure convert files fk_on tables2 db' in
          (r, db'', lg ++ lg2)
      end.
Proof.
  induction tables1 as [|t tables1 IH]; simpl; intros db.
  - by destruct (load_pure _ _ _ _ _) as [[? ?] ?].
  - destruct (loaded_frame files t) as [e|d]; [done |].
    destruct (insert_frame _ _ _ _ _) as [e|db1]; [done |].
    rewrite IH.
    destruct (load_pure _ _ _ tables1 db1) as [[[e|[]] db2] lg]; [done |].
    by destruct (load_pure _ _ _ tables2 db2) as [[? ?] ?].
Qed.

(** A loading loop that ends well has put the rows of every frame into its
    table, after the rows that were there, and has left the other tables
    alone. *)
Lemma load_pure_success fk_on tables :
  ∀ db db' lg,
    NoDup tables →
    load_pure convert files fk_on tables db = (inr tt, db', lg) →
    lg = ToSql <$> tables ∧
    (∀ t, t ∉ tables → db' !! t = db !! t) ∧
    (∀ t, t ∈ tables →
       ∃ d tab srs,
         loaded_frame files t = inr d ∧
         db !! t = Some tab ∧
         db' !! t = Some (mkTable (t_schema tab) (t_rows tab ++ srs)) ∧
         (wf_schema (t_schema tab) →
          Forall2 (stored_as convert (t_schema tab) (columns d)) (rows d) srs) ∧
         length srs = length (rows d)).
Proof.
  induction tables as [|t tables IH]; simpl; intros db db' lg Hnd Hload.
  - injection Hload as <- <-. split; [done |]. split; [done |].
    intros t Ht. by apply elem_of_nil in Ht.
  - apply NoDup_cons in Hnd as [Hnotin Hnd].
    destruct (loaded_frame files t) as [e|d] eqn:Hframe; [done |].
    destruct (insert_frame _ _ _ _ _) as [e|db1] eqn:Hins; [done |].
    destruct (load_pure _ _ _ _ db1) as [[r' db2] lg'] eqn:Hrest.
    injection Hload as -> -> <-.
    destruct (IH _ _ _ Hnd Hrest) as (-> & Hother & Hthese).
    apply insert_frame_inv in Hins as (tab & srs & Htab & -> & Hall).
    split; [done |]. split.
    + intros t' Ht'. apply not_elem_of_cons in Ht' as [Hne Ht'].
      rewrite Hother by done. by rewrite lookup_insert_ne.
    + intros t' [->|Ht']%elem_of_cons.
      * exists d, tab, srs. rewrite Hother by done.
        rewrite lookup_insert_eq. repeat split; try done.
        -- intros Hwf. eapply Forall2_impl; [exact Hall |].
           intros r sr (H1 & _). by apply H1.
        -- symmetry. by eapply Forall2_length.
      * destruct (Hthese t' Ht') as (d' & tab' & srs' & Hd' & Htab' & Hdb' & Hall').
        assert (Hne : t ≠ t') by (intros ->; done).
        rewrite lookup_insert_ne in Htab' by done.
        by exists d', tab', srs'.
Qed.

End PureFacts.

Section MainRuns.

Variable convert : sqltype → sqlval → sqlval.

(** What follows the creation of the tables starts from the fresh store,
    with foreign keys on. *)
Lemma init_then {A} (k : M A) (w : world) :
  (unlink_db >> connect >> pragma_foreign_keys_on >> create_tables >> k) w
  = k (mkWorld (w_files w) (Some fresh_db) true (w_heap w) (w_out w)
         (w_log w ++ init_log)).
Proof.
  pose proof (init_run w) as H.
  cbv beta iota delta [bind unlink_db connect pragma_foreign_keys_on] in H.
  cbv beta iota delta [bind unlink_db connect pragma_foreign_keys_on].
  by rewrite H.
Qed.

Lemma run_until_run (tables : list string) (w : world) :
  ∃ h',
    run_until convert tables w
    = (let '(r, db', lg) := load_pure convert (w_files w) true tables fresh_db in
       (r, mkWorld (w_files w) (Some db') true (w_heap w ++ h') (w_out w)
             (w_log w ++ init_log ++ lg))).
Proof.
  unfold run_until. rewrite init_then.
  destruct (load_tables_run convert tables
              (mkWorld (w_files w) (Some fresh_db) true (w_heap w) (w_out w)
                 (w_log w ++ init_log)) fresh_db eq_refl) as [h' Hrun].
  exists h'. rewrite Hrun. simpl.
  destruct (load_pure _ _ _ _ _) as [[r db'] lg]. by rewrite <- app_assoc.
Qed.

Lemma main_split (w : world) :
  main convert w = (run_until convert LOAD_ORDER >> report) w.
Proof.
  unfold main. rewrite init_then.
  change ((run_until convert LOAD_ORDER >> report) w)
    with (match run_until convert LOAD_ORDER w with
          | (inl e, w') => (inl e, w')
          | (inr _, w') => report w'
          end).
  unfold run_until. by rewrite init_then.
Qed.

(** A run of [main]: everything but the heap is a function of the files. *)
Lemma main_run (w : world) :
  ∃ h',
    main convert w
    = (let '(r, db, rep, lg) := main_pure convert (w_files w) in
       (r, mkWorld (w_files w) (Some db) true (w_heap w ++ h')
             (w_out w ++ rep) (w_log w ++ lg))).
Proof.
  rewrite main_split. unfold bind.
  destruct (run_until_run LOAD_ORDER w) as [h' Hrun]. exists h'.
  rewrite Hrun. unfold main_pure.
  destruct (load_pure _ _ _ _ _) as [[[e|[]] db] lg] eqn:Hload.
  - by rewrite app_nil_r.
  - erewrite report_run; [| reflexivity |].
    + simpl. by rewrite <- !app_assoc.
    + apply schemas_kept_exists.
      eapply load_pure_kept; [apply fresh_db_kept | exact Hload].
Qed.

End MainRuns.

(** ** Claims about a whole run *)

Section RunFacts.

Variable convert : sqltype → sqlval → sqlval.
Variable files : gmap string DataFrame.

Lemma NoDup_LOAD_ORDER : NoDup LOAD_ORDER.
Proof. apply (bool_decide_unpack _). by vm_compute. Qed.

(** After a loading loop that ends well on the fresh store, the table of
    every file that was loaded holds the rows of the loaded frame. *)
Lemma loaded_table (tables : list string) (db : gmap string Table) (lg : list stmt) :
  NoDup tables →
  load_pure convert files true tables fresh_db = (inr tt, db, lg) →
  ∀ t sch, t ∈ tables → (t, sch) ∈ TABLE_SCHEMAS →
    ∃ d srs,
      loaded_frame files t = inr d ∧
      db !! t = Some (mkTable sch srs) ∧
      Forall2 (stored_as convert sch (columns d)) (rows d) srs ∧
      length srs = length (rows d).
Proof.
  intros Hnd Hload t sch Ht Hsch.
  destruct (load_pure_success _ _ _ _ _ _ _ Hnd Hload) as (_ & _ & Hthese).
  destruct (Hthese t Ht) as (d & tab & srs & Hd & Htab & Hdb & Hall & Hlen).
  rewrite (fresh_db_lookup t sch Hsch) in Htab. injection Htab as <-.
  exists d, srs. simpl in *. repeat split; try done.
  apply Hall. by eapply TABLE_SCHEMAS_wf.
Qed.

Lemma untouched_table (tables : list string) (db : gmap string Table) (lg : list stmt) :
  NoDup tables →
  load_pure convert files true tables fresh_db = (inr tt, db, lg) →
  ∀ t sch, t ∉ tables → (t, sch) ∈ TABLE_SCHEMAS →
    db !! t = Some (mkTable sch []).
Proof.
  intros Hnd Hload t sch Ht Hsch.
  destruct (load_pure_success _ _ _ _ _ _ _ Hnd Hload) as (_ & Hother & _).
  rewrite Hother by done. by apply fresh_db_lookup.
Qed.

Lemma LOAD_ORDER_schema (t : string) :
  t ∈ LOAD_ORDER → ∃ sch, (t, sch) ∈ TABLE_SCHEMAS.
Proof.
  intros H. change LOAD_ORDER with (TABLE_SCHEMAS.*1) in H.
  apply list_elem_of_fmap in H as ([t' sch] & -> & Hin). by exists sch.
Qed.


End RunFacts.






Section Failures.

Variable convert : sqltype → sqlval → sqlval.

Lemma run_until_ok (tables : list string) (w w' : world) :
  run_until convert tables w = (inr tt, w') →
  ∃ db lg,
    load_pure convert (w_files w) true tables fresh_db = (inr tt, db, lg) ∧
    w_db w' = Some db ∧ w_out w' = w_out w.
Proof.
  intros Hrun. destruct (run_until_run convert tables w) as [h' H].
  rewrite Hrun in H.
  destruct (load_pure _ _ _ _ _) as [[[e|[]] db] lg]; [done |].
  injection H as ->. by exists db, lg.
Qed.

Lemma main_failed (w : world) (e : error) (db : gmap string Table) (lg : list stmt) :
  load_pure convert (w_files w) true LOAD_ORDER fresh_db = (inl e, db, lg) →
  ∃ w', main convert w = (inl e, w') ∧ w_out w' = w_out w ∧ w_db w' = Some db.
Proof.
  intros Hload. destruct (main_run convert w) as [h' H].
  unfold main_pure in H. rewrite Hload in H.
  eexists. split; [exact H |]. simpl. by rewrite app_nil_r.
Qed.

Lemma four_tables_schema (t : string) :
  t ∈ ["customers"; "products"; "orders"; "order_items"] →
  (t, schema_of t) ∈ TABLE_SCHEMAS.
Proof.
  intros H.
  repeat (apply elem_of_cons in H as [->|H];
          [apply (bool_decide_unpack _); by vm_compute |]).
  by apply elem_of_nil in H.
Qed.

End Failures.

(** C3. When reviews.csv is missing and the loading of customers, products,
    orders and order_items goes through, the run ends with
    [FileNotFoundError] naming [data/reviews.csv] and prints nothing; the
    store it leaves is the one the four loads produced: each of the four
    tables holds the rows loaded from its file, as many as the file has, and
    the reviews table is empty. *)
Theorem missing_reviews (convert : sqltype → sqlval → sqlval) (w w4 : world) :
  w_files w !! csv_path "reviews" = None →
  run_until convert ["customers"; "products"; "orders"; "order_items"] w
  = (inr tt, w4) →
  ∃ w' db,
    main convert w
    = (inl (FileNotFoundError "Missing CSV: data/reviews.csv"), w') ∧
    w_out w' = w_out w ∧
    w_db w' = Some db ∧
    w_db w4 = Some db ∧
    (∀ t, t ∈ ["customers"; "products"; "orders"; "order_items"] →
       ∃ d0 d srs,
         w_files w !! csv_path t = Some d0 ∧
         loaded_frame (w_files w) t = inr d ∧
         db !! t = Some (mkTable (schema_of t) srs) ∧
         length srs = length (rows d0) ∧
         Forall2 (stored_as convert (schema_of t) (columns d)) (rows d) srs) ∧
    db !! "reviews" = Some (mkTable (schema_of "reviews") []).
Proof.
  intros Hfile Hfour.
  apply run_until_ok in Hfour as (db & lg & Hload & Hdb4 & _).
  assert (Hall : load_pure convert (w_files w) true LOAD_ORDER fresh_db
                 = (inl (FileNotFoundError "Missing CSV: data/reviews.csv"), db, lg ++ [])).
  { change LOAD_ORDER
      with (["customers"; "products"; "orders"; "order_items"] ++ ["reviews"]).
    rewrite load_pure_app, Hload. simpl.
    unfold loaded_frame. by rewrite Hfile. }
  destruct (main_failed convert w _ _ _ Hall) as (w' & Hmain & Hout & Hdb).
  exists w', db. repeat split; try done.
  - intros t Ht.
    assert (Hnd : NoDup ["customers"; "products"; "orders"; "order_items"])
      by (apply (bool_decide_unpack _); by vm_compute).
    destruct (loaded_table convert (w_files w) _ _ _ Hnd Hload t (schema_of t) Ht
                (four_tables_schema t Ht))
      as (d & srs & Hd & Htab & Hstored & Hlen).
    destruct (loaded_frame_file _ _ _ Hd) as (d0 & Hd0 & Hrows & _).
    exists d0, d, srs. repeat split; try done. congruence.
  - eapply (untouched_table convert (w_files w)); [| exact Hload | |].
    + apply (bool_decide_unpack _). by vm_compute.
    + apply (bool_decide_unpack _). by vm_compute.
    + apply (bool_decide_unpack _). by vm_compute.
Qed.

Lemma missing_reviews_witness :
  ∃ w' db,
    main Sample.convert Sample.no_reviews
    = (inl (FileNotFoundError "Missing CSV: data/reviews.csv"), w') ∧
    w_out w' = w_out Sample.no_reviews ∧
    w_db w' = Some db ∧
    w_db (run_until Sample.convert
            ["customers"; "products"; "orders"; "order_items"] Sample.no_reviews).2
    = Some db ∧
    (∀ t, t ∈ ["customers"; "products"; "orders"; "order_items"] →
       ∃ d0 d srs,
         w_files Sample.no_reviews !! csv_path t = Some d0 ∧
         loaded_frame (w_files Sample.no_reviews) t = inr d ∧
         db !! t = Some (mkTable (schema_of t) srs) ∧
         length srs = length (rows d0) ∧
         Forall2 (stored_as Sample.convert (schema_of t) (columns d)) (rows d) srs) ∧
    db !! "reviews" = Some (mkTable (schema_of "reviews") []).
Proof.
  apply (missing_reviews Sample.convert Sample.no_reviews).
  - by vm_compute.
  - by vm_compute.
Defined.

Lemma not_null_passed (tname : string) (sr : gmap string sqlval) (cd : column_def)
    (v : sqlval) :
  col_not_null cd = true →
  sr !! col_name cd = Some v →
  check_not_null tname sr cd = None →
  v ≠ SNull.
Proof.
  intros Hnn Hv. unfold check_not_null. rewrite Hnn, Hv. simpl.
  case_bool_decide; [done |]. intros _ ->. done.
Qed.

Lemma foreign_key_passed (db : gmap string Table) (sr : gmap string sqlval)
    (fk : foreign_key) (v : sqlval) (p : Table) :
  sr !! fk_column fk = Some v →
  v ≠ SNull →
  db !! fk_table fk = Some p →
  check_foreign_key db sr fk = None →
  ∃ pr, pr ∈ t_rows p ∧ pr !! fk_parent fk = Some v.
Proof.
  intros Hv Hnull Hp. unfold check_foreign_key. rewrite Hv, Hp.
  destruct v; try done; case_decide as Hin; try done; intros _;
    apply list_elem_of_fmap in Hin as (pr & Hpr & Hin); by exists pr.
Qed.

Section Stray.

Variable convert : sqltype → sqlval → sqlval.



End Stray.




(** ** Runs compared *)

(** A run starts by deleting the store, so what it returns, prints and
    leaves in the store depends on the files alone. *)
Lemma main_ignores_store (convert : sqltype → sqlval → sqlval) (w1 w2 : world) :
  w_files w1 = w_files w2 →
  (main convert w1).1 = (main convert w2).1 ∧
  w_db (main convert w1).2 = w_db (main convert w2).2 ∧
  w_files (main convert w1).2 = w_files w1 ∧
  ∃ rep,
    w_out (main convert w1).2 = w_out w1 ++ rep ∧
    w_out (main convert w2).2 = w_out w2 ++ rep.
Proof.
  intros Hfiles.
  destruct (main_run convert w1) as [h1 H1].
  destruct (main_run convert w2) as [h2 H2].
  rewrite H1, H2, Hfiles.
  destruct (main_pure convert (w_files w2)) as [[[r db] rep] lg]. simpl.
  repeat split; try done. by exists rep.
Qed.

(** C6. A second run over the same files ends as the first one did and
    prints the same report, and it leaves the same store; so does a run
    from any other store, since the store is deleted and made anew when a
    run starts. *)
Theorem rerun_same_report (convert : sqltype → sqlval → sqlval) (w : world) :
  let first := main convert w in
  let second := main convert first.2 in
  w_files first.2 = w_files w ∧
  second.1 = first.1 ∧
  (∃ rep, w_out first.2 = w_out w ++ rep ∧ w_out second.2 = w_out first.2 ++ rep) ∧
  w_db second.2 = w_db first.2 ∧
  (∀ store, (main convert (set_db store w)).1 = first.1 ∧
            w_db (main convert (set_db store w)).2 = w_db first.2).
Proof.
  cbv zeta.
  destruct (main_ignores_store convert w w eq_refl) as (_ & _ & Hfiles & _).
  destruct (main_ignores_store convert w (main convert w).2 (eq_sym Hfiles))
    as (Hres & Hdb & _ & rep & Hout1 & Hout2).
  split; [done |]. split; [done |]. split; [by exists rep |]. split; [done |].
  intros store.
  destruct (main_ignores_store convert (set_db store w) w eq_refl) as (H1 & H2 & _).
  done.
Qed.

Lemma load_pure_log (convert : sqltype → sqlval → sqlval)
    (files : gmap string DataFrame) (fk_on : bool) (tables : list string) :
  ∀ db r db' lg,
    load_pure convert files fk_on tables db = (r, db', lg) →
    ∃ loaded,
      lg = ToSql <$> loaded ∧
      loaded `prefix_of` tables ∧
      (r = inr tt → loaded = tables).
Proof.
  induction tables as [|t tables IH]; simpl; intros db r db' lg Hload.
  - injection Hload as _ _ <-. by exists [].
  - destruct (loaded_frame files t) as [e|d].
    { injection Hload as <- _ <-. exists []. split; [done |].
      split; [apply prefix_nil | done]. }
    destruct (insert_frame _ _ _ _ _) as [e|db1].
    { injection Hload as <- _ <-. exists [t]. split; [done |].
      split; [by apply prefix_cons, prefix_nil | done]. }
    destruct (load_pure _ _ _ _ db1) as [[r' db2] lg'] eqn:Hrest.
    injection Hload as <- _ <-.
    destruct (IH _ _ _ _ Hrest) as (loaded & -> & Hpre & Hall).
    exists (t :: loaded). split; [done |].
    split; [by apply prefix_cons |]. intros Hr. by rewrite Hall.
Qed.

Lemma parents_first_TABLE_SCHEMAS : parents_first TABLE_SCHEMAS.
Proof.
  intros i t sch fk Hi Hfk.
  do 5 (destruct i as [|i];
        [injection Hi as <- <-; simpl in Hfk;
         repeat (apply elem_of_cons in Hfk as [->|Hfk];
                 [first [ by exists 0%nat; split; [lia | done]
                        | by exists 1%nat; split; [lia | done]
                        | by exists 2%nat; split; [lia | done] ] |]);
         by apply elem_of_nil in Hfk |]).
  done.
Qed.

(** C9. The schema registry lists its tables in the order customers,
    products, orders, order_items, reviews, which is the order of the
    loading loop and puts every table after the tables it refers to.  A run
    creates the five tables in that order, then loads them in that order (as
    far as it gets), then, if all were loaded, counts them in that order. *)
Theorem table_order (convert : sqltype → sqlval → sqlval) (w : world) :
  TABLE_SCHEMAS.*1 = ["customers"; "products"; "orders"; "order_items"; "reviews"] ∧
  LOAD_ORDER = ["customers"; "products"; "orders"; "order_items"; "reviews"] ∧
  parents_first TABLE_SCHEMAS ∧
  ∃ loaded counted,
    w_log (main convert w).2
    = w_log w ++ init_log ++ (ToSql <$> loaded) ++ (SelectCount <$> counted) ∧
    created_tables init_log
    = ["customers"; "products"; "orders"; "order_items"; "reviews"] ∧
    loaded_tables init_log = [] ∧
    loaded `prefix_of` ["customers"; "products"; "orders"; "order_items"; "reviews"] ∧
    ((main convert w).1 = inr tt →
       loaded = ["customers"; "products"; "orders"; "order_items"; "reviews"] ∧
       counted = ["customers"; "products"; "orders"; "order_items"; "reviews"]) ∧
    (counted = [] ∨ (main convert w).1 = inr tt).
Proof.
  split; [done |]. split; [done |]. split; [apply parents_first_TABLE_SCHEMAS |].
  destruct (main_run convert w) as [h' Hrun]. rewrite Hrun. unfold main_pure.
  destruct (load_pure _ _ _ _ _) as [[r db] lg] eqn:Hload.
  destruct (load_pure_log _ _ _ _ _ _ _ _ Hload) as (loaded & -> & Hpre & Hall).
  destruct r as [e|[]]; simpl.
  - exists loaded, []. simpl. rewrite app_nil_r.
    repeat split; try done. by left.
  - exists loaded, ["customers"; "products"; "orders"; "order_items"; "reviews"].
    repeat split; try done.
    + by apply Hall.
    + by right.
Qed.

(** * Further properties *)

(** ** Text: what the normalizer reads as true *)















(** A text that starts with a character that is neither white space nor a
    "T" or an "F" in either case maps to 0. *)
Lemma plain_start_zero (a : ascii) (s : string) :
  plain_start a = true →
  spec_boolean (PyStr.upper (PyStr.strip (String a s))) = 0.
Proof.
  unfold plain_start. intros [[Hsp HT]%andb_prop HF]%andb_prop.
  apply negb_true_iff in Hsp, HT, HF.
  assert (Hstrip : ∃ r, PyStr.strip (String a s) = String a r).
  { unfold PyStr.strip. simpl. rewrite Hsp. simpl.
    destruct (PyStr.rstrip s); [rewrite Hsp |]; eauto. }
  destruct Hstrip as [r ->]. simpl. unfold spec_boolean.
  rewrite decide_False.
  - by destruct (decide _).
  - intros [= H _]. rewrite H in HT. by vm_compute in HT.
Qed.

Lemma pretty_N_char_plain (x : N) : plain_start (pretty_N_char x) = true.
Proof. unfold pretty_N_char. by repeat case_match. Qed.

Lemma pretty_N_go_start (x : N) :
  ∀ s, (0 < x)%N →
    ∃ a r, pretty_N_go x s = String a r ∧ plain_start a = true.
Proof.
  induction (N.lt_wf_0 x) as [x _ IH]. intros s Hx.
  rewrite pretty_N_go_step by done.
  destruct (N.eq_0_gt_0_cases (x `div` 10)) as [Hdiv|Hdiv].
  - rewrite Hdiv, pretty_N_go_0. eexists _, _. split; [done |].
    apply pretty_N_char_plain.
  - apply IH; [by apply N.div_lt | done].
Qed.

(** The decimal text of an integer starts with a digit or a minus sign. *)
Lemma pretty_Z_start (z : Z) :
  ∃ a r, pretty z = String a r ∧ plain_start a = true.
Proof.
  destruct z as [|p|p].
  - by exists "0"%char, "".
  - change (pretty (Z.pos p)) with (pretty_N_go (N.pos p) "").
    by apply pretty_N_go_start.
  - by exists "-"%char, (pretty (N.pos p)).
Qed.

Lemma canonical_text_int (z : Z) : spec_boolean (canonical_text (VInt z)) = 0.
Proof.
  unfold canonical_text. simpl.
  destruct (pretty_Z_start z) as (a & r & -> & Ha). by apply plain_start_zero.
Qed.

(** ** The normalizer: cells by kind, and a second pass *)

(** X1. A second pass of [normalize_booleans] over its own result puts 0 in
    every row of the column: the integers 0 and 1 read "0" and "1", and
    neither is in the dict. *)
Theorem normalize_booleans_twice (w : world) (df : loc) (d : DataFrame)
    (column : string) :
  w_heap w !! df = Some d →
  column ∈ columns d →
  ∃ df1 w1 df2 w2 d2,
    normalize_booleans df column w = (inr df1, w1) ∧
    normalize_booleans df1 column w1 = (inr df2, w2) ∧
    w_heap w2 !! df2 = Some d2 ∧
    length (rows d2) = length (rows d) ∧
    ∀ i r2, rows d2 !! i = Some r2 → r2 !! column = Some (VInt 0).
Proof.
  intros Hdf Hin.
  eexists _, _, _, _, (normalized (normalized d column) column).
  split; [by apply normalize_booleans_run |].
  split; [apply normalize_booleans_run; [simpl; apply heap_snoc_lookup | done] |].
  split; [simpl; apply heap_snoc_lookup |].
  split; [simpl; by rewrite !length_fmap |].
  intros i r2. simpl. rewrite <- list_fmap_compose, list_lookup_fmap.
  destruct (rows d !! i) as [r|]; [| done]. simpl. intros [= <-].
  rewrite lookup_insert_eq. unfold cell at 1. rewrite lookup_insert_eq. simpl.
  by rewrite canonical_text_int.
Qed.

Lemma normalize_booleans_twice_witness :
  ∃ df1 w1 df2 w2 d2,
    normalize_booleans 0%nat "in_stock" Sample.with_products = (inr df1, w1) ∧
    normalize_booleans df1 "in_stock" w1 = (inr df2, w2) ∧
    w_heap w2 !! df2 = Some d2 ∧
    length (rows d2) = length (rows Sample.products) ∧
    ∀ i r2, rows d2 !! i = Some r2 → r2 !! "in_stock" = Some (VInt 0).
Proof.
  apply (normalize_booleans_twice Sample.with_products 0%nat Sample.products "in_stock").
  - reflexivity.
  - apply (bool_decide_unpack _). vm_compute. exact I.
Defined.

(** X2. [normalize_booleans] maps a cell that holds the bool True to 1 and
    one that holds False to 0, and it maps every cell that holds an integer
    to 0, the integer 1 included. *)
Theorem normalize_booleans_bool_int (w : world) (df : loc) (d : DataFrame)
    (column : string) :
  w_heap w !! df = Some d →
  column ∈ columns d →
  ∃ df' w' d',
    normalize_booleans df column w = (inr df', w') ∧
    w_heap w' !! df' = Some d' ∧
    ∀ i r, rows d !! i = Some r →
      ∃ r', rows d' !! i = Some r' ∧
        (r !! column = Some (VBool true) → r' !! column = Some (VInt 1)) ∧
        (r !! column = Some (VBool false) → r' !! column = Some (VInt 0)) ∧
        (∀ z, r !! column = Some (VInt z) → r' !! column = Some (VInt 0)).
Proof.
  intros Hdf Hin.
  eexists _, _, (normalized d column).
  split; [by apply normalize_booleans_run |].
  split; [simpl; apply heap_snoc_lookup |].
  intros i r Hr. eexists. split; [by apply normalized_lookup |].
  rewrite lookup_insert_eq. unfold cell.
  repeat split.
  - by intros ->.
  - by intros ->.
  - intros z ->. simpl. by rewrite canonical_text_int.
Qed.

Lemma normalize_booleans_bool_int_witness :
  ∃ df' w' d',
    normalize_booleans 0%nat "in_stock" Sample.with_products = (inr df', w') ∧
    w_heap w' !! df' = Some d' ∧
    ∀ i r, rows Sample.products !! i = Some r →
      ∃ r', rows d' !! i = Some r' ∧
        (r !! "in_stock" = Some (VBool true) → r' !! "in_stock" = Some (VInt 1)) ∧
        (r !! "in_stock" = Some (VBool false) → r' !! "in_stock" = Some (VInt 0)) ∧
        (∀ z, r !! "in_stock" = Some (VInt z) → r' !! "in_stock" = Some (VInt 0)).
Proof.
  apply (normalize_booleans_bool_int Sample.with_products 0%nat Sample.products
           "in_stock").
  - reflexivity.
  - apply (bool_decide_unpack _). vm_compute. exact I.
Defined.



(** ** The store a run leaves *)

Section FinalStore.

Variable convert : sqltype → sqlval → sqlval.

(** The outcome of [main] and the store, the session and the output it
    leaves, read off the loading loop on the fresh store. *)
Lemma main_final (w : world) :
  ∃ r db lg,
    load_pure convert (w_files w) true LOAD_ORDER fresh_db = (r, db, lg) ∧
    (main convert w).1 = r ∧
    w_db (main convert w).2 = Some db ∧
    w_fk (main convert w).2 = true ∧
    w_out (main convert w).2
    = w_out w ++ (match r with inl _ => [] | inr _ => report_lines db end).
Proof.
  destruct (main_run convert w) as [h' Hrun]. rewrite Hrun. unfold main_pure.
  destruct (load_pure _ _ _ _ _) as [[[e|[]] db] lg]; by eexists _, _, _.
Qed.

Lemma schema_of_TABLE_SCHEMAS (t : string) (sch : table_schema) :
  (t, sch) ∈ TABLE_SCHEMAS → sch = schema_of t.
Proof.
  intros H. unfold TABLE_SCHEMAS in H.
  repeat (apply elem_of_cons in H as [[= -> ->]|H]; [by vm_compute |]).
  by apply elem_of_nil in H.
Qed.

Lemma LOAD_ORDER_schema_of (t : string) :
  t ∈ LOAD_ORDER → (t, schema_of t) ∈ TABLE_SCHEMAS.
Proof.
  intros Ht. destruct (LOAD_ORDER_schema t Ht) as [sch Hsch].
  by rewrite <- (schema_of_TABLE_SCHEMAS t sch).
Qed.

Lemma fresh_db_dom (t : string) : is_Some (fresh_db !! t) ↔ t ∈ LOAD_ORDER.
Proof.
  split.
  - intros Hsome. destruct (decide (t ∈ LOAD_ORDER)) as [|Hnot]; [done |].
    unfold fresh_db in Hsome. rewrite not_elem_of_list_to_map_1 in Hsome.
    + by destruct Hsome.
    + exact Hnot.
  - intros Ht. rewrite (fresh_db_lookup t (schema_of t)); [eauto |].
    by apply LOAD_ORDER_schema_of.
Qed.

Lemma load_pure_dom (files : gmap string DataFrame) (fk_on : bool)
    (tables : list string) :
  ∀ db r db' lg,
    load_pure convert files fk_on tables db = (r, db', lg) →
    ∀ t, is_Some (db' !! t) ↔ is_Some (db !! t).
Proof.
  induction tables as [|t0 tables IH]; simpl; intros db r db' lg Hload t.
  - by injection Hload as _ <- _.
  - destruct (loaded_frame files t0) as [e|d]; [by injection Hload as _ <- _ |].
    destruct (insert_frame _ _ _ _ _) as [e|db1] eqn:Hins;
      [by injection Hload as _ <- _ |].
    destruct (load_pure _ _ _ _ db1) as [[r' db2] lg'] eqn:Hrest.
    injection Hload as _ <- _. rewrite (IH _ _ _ _ Hrest).
    apply insert_frame_inv in Hins as (tab & srs & Htab & -> & _).
    rewrite lookup_insert_is_Some. split.
    + intros [<-|[_ H]]; [eauto | done].
    + intros H. destruct (decide (t0 = t)); [by left | by right].
Qed.

End FinalStore.

(** X4. Whatever the store held and however the run ends, [main] leaves a
    store that holds the five tables of the registry and no other, each with
    the schema the registry gives it, on a connection with foreign keys on. *)
Theorem store_reset (convert : sqltype → sqlval → sqlval) (w : world) :
  ∃ db,
    w_db (main convert w).2 = Some db ∧
    w_fk (main convert w).2 = true ∧
    (∀ t, is_Some (db !! t) ↔ t ∈ LOAD_ORDER) ∧
    (∀ t tab, db !! t = Some tab → t_schema tab = schema_of t).
Proof.
  destruct (main_final convert w) as (r & db & lg & Hload & _ & Hdb & Hfk & _).
  exists db. split; [done |]. split; [done |].
  assert (Hdom : ∀ t, is_Some (db !! t) ↔ t ∈ LOAD_ORDER).
  { intros t. rewrite (load_pure_dom _ _ _ _ _ _ _ _ Hload). apply fresh_db_dom. }
  split; [done |].
  intros t tab Htab.
  assert (Hk : schemas_kept db)
    by (eapply load_pure_kept; [apply fresh_db_kept | exact Hload]).
  destruct (Hk t (schema_of t)) as [rs Hrs].
  { apply LOAD_ORDER_schema_of. apply Hdom. eauto. }
  rewrite Hrs in Htab. by injection Htab as <-.
Qed.

(** ** How far a run gets *)

(** A loading loop loads a first part of its tables and stops at the first
    one that fails. *)
Lemma load_pure_split (convert : sqltype → sqlval → sqlval)
    (files : gmap string DataFrame) (fk_on : bool) (tables : list string) :
  ∀ db r db' lg,
    load_pure convert files fk_on tables db = (r, db', lg) →
    ∃ done rest lg',
      tables = done ++ rest ∧
      load_pure convert files fk_on done db = (inr tt, db', lg') ∧
      (r = inr tt → rest = []) ∧
      (∀ e, r = inl e → rest ≠ []).
Proof.
  induction tables as [|t tables IH]; simpl; intros db r db' lg Hload.
  - injection Hload as <- <- _. by exists [], [], [].
  - destruct (loaded_frame files t) as [e|d] eqn:Hframe.
    { injection Hload as <- <- _. by exists [], (t :: tables), []. }
    destruct (insert_frame _ _ _ _ _) as [e|db1] eqn:Hins.
    { injection Hload as <- <- _. by exists [], (t :: tables), []. }
    destruct (load_pure _ _ _ _ db1) as [[r' db2] lg'] eqn:Hrest.
    injection Hload as <- <- _.
    destruct (IH _ _ _ _ Hrest) as (done & rest & lg'' & -> & Hdone & Hok & Hbad).
    exists (t :: done), rest, (ToSql t :: lg''). simpl.
    rewrite Hframe, Hins, Hdone. done.
Qed.

(** X5. However a run ends, the tables split in load order into a first part
    that is loaded in full, each table with as many rows as its file has,
    and a rest that is empty; the rest is empty exactly when the run ends
    well.  No table is left partly loaded. *)
Theorem loaded_prefix (convert : sqltype → sqlval → sqlval) (w : world) :
  ∃ db done rest,
    w_db (main convert w).2 = Some db ∧
    LOAD_ORDER = done ++ rest ∧
    (∀ t, t ∈ done →
       is_Some (w_files w !! csv_path t) ∧
       table_count db t = csv_rows (w_files w) t) ∧
    (∀ t, t ∈ rest → db !! t = Some (mkTable (schema_of t) [])) ∧
    ((main convert w).1 = inr tt ↔ rest = []).
Proof.
  destruct (main_final convert w) as (r & db & lg & Hload & Hres & Hdb & _).
  destruct (load_pure_split _ _ _ _ _ _ _ _ Hload)
    as (done & rest & lg' & Hsplit & Hdone & Hok & Hbad).
  exists db, done, rest. split; [done |]. split; [done |].
  pose proof NoDup_LOAD_ORDER as Hnd. rewrite Hsplit in Hnd.
  apply NoDup_app in Hnd as (Hnd_done & Hdisjoint & _).
  split; [| split].
  - intros t Ht.
    assert (Hin : t ∈ LOAD_ORDER) by (rewrite Hsplit; set_solver).
    destruct (loaded_table convert (w_files w) _ _ _ Hnd_done Hdone t (schema_of t)
                Ht (LOAD_ORDER_schema_of t Hin))
      as (d & srs & Hd & Htab & _ & Hlen).
    apply loaded_frame_file in Hd as (d0 & Hfile & Hrows & _).
    unfold table_count, csv_rows. rewrite Htab, Hfile. simpl.
    split; [eauto | congruence].
  - intros t Ht.
    assert (Hin : t ∈ LOAD_ORDER) by (rewrite Hsplit; set_solver).
    eapply (untouched_table convert (w_files w)); [exact Hnd_done | exact Hdone | |].
    + intros Hd. by apply (Hdisjoint t).
    + by apply LOAD_ORDER_schema_of.
  - rewrite Hres. split; [done |]. intros ->.
    destruct r as [e|[]]; [| done]. by destruct (Hbad e).
Qed.

(** ** Constraints in the store a run leaves *)

Section Invariant.

Variable convert : sqltype → sqlval → sqlval.
Variable P : table_schema → list (gmap string sqlval) → Prop.

(** The property survives the insertion of a row that passed the checks. *)
Hypothesis P_insert :
  ∀ tname sch rs cols r sr,
    build_row convert rs cols r (ts_columns sch) = inr sr →
    check_all (check_not_null tname sr) (ts_columns sch) = None →
    check_all (check_in sr) (ts_columns sch) = None →
    check_all (check_unique tname rs sr) (ts_columns sch) = None →
    P sch rs → P sch (rs ++ [sr]).

Lemma insert_row_keeps fk_on tname cols db r db' :
  every_table P db →
  insert_row convert fk_on tname cols db r = inr db' →
  every_table P db'.
Proof.
  intros Hall. unfold insert_row.
  destruct (db !! tname) as [tab|] eqn:Htab; [| done].
  destruct (build_row _ _ _ _ _) as [e|sr] eqn:Hsr; [done |].
  destruct (first_error _ _) eqn:Hchk; [done |]. intros [= <-].
  apply first_error_None in Hchk as [Hnn Hchk].
  apply first_error_None in Hchk as [Hin Hchk].
  apply first_error_None in Hchk as [Huniq _].
  intros t tab'. destruct (decide (tname = t)) as [->|Hne].
  - rewrite lookup_insert_eq. intros [= <-]. simpl.
    eapply P_insert; try done. by apply Hall in Htab.
  - rewrite lookup_insert_ne by done. apply Hall.
Qed.

Lemma insert_rows_keeps fk_on tname cols rs :
  ∀ db db',
    every_table P db →
    insert_rows convert fk_on tname cols db rs = inr db' →
    every_table P db'.
Proof.
  induction rs as [|r rs IH]; simpl; intros db db' Hall Hins.
  - by injection Hins as <-.
  - destruct (insert_row _ _ _ _ _ r) as [e|db1] eqn:Hrow; [done |].
    eapply IH; [| exact Hins]. by eapply insert_row_keeps.
Qed.

Lemma insert_frame_keeps fk_on tname d db db' :
  every_table P db →
  insert_frame convert fk_on tname d db = inr db' →
  every_table P db'.
Proof.
  intros Hall. unfold insert_frame.
  destruct (db !! tname); [| done].
  destruct (rows d) eqn:Hrows; [by intros [= <-] |].
  destruct (filter _ _); [| done]. by apply insert_rows_keeps.
Qed.

Lemma load_pure_keeps files fk_on tables :
  ∀ db r db' lg,
    every_table P db →
    load_pure convert files fk_on tables db = (r, db', lg) →
    every_table P db'.
Proof.
  induction tables as [|t tables IH]; simpl; intros db r db' lg Hall Hload.
  - by injection Hload as _ <- _.
  - destruct (loaded_frame files t) as [e|d]; [by injection Hload as _ <- _ |].
    destruct (insert_frame _ _ _ _ _) as [e|db1] eqn:Hins;
      [by injection Hload as _ <- _ |].
    destruct (load_pure _ _ _ _ db1) as [[r' db2] lg'] eqn:Hrest.
    injection Hload as _ <- _. eapply IH; [| exact Hrest].
    by eapply insert_frame_keeps.
Qed.

(** What holds of an empty table and survives every insertion holds in the
    store a run leaves. *)
Lemma main_keeps (w : world) (db : gmap string Table) :
  (∀ sch, P sch []) →
  w_db (main convert w).2 = Some db →
  every_table P db.
Proof.
  intros Hempty Hdb.
  destruct (main_final convert w) as (r & db0 & lg & Hload & _ & Hdb0 & _).
  rewrite Hdb in Hdb0. injection Hdb0 as <-.
  eapply load_pure_keeps; [| exact Hload].
  intros t tab Htab.
  assert (Hin : t ∈ LOAD_ORDER) by (apply fresh_db_dom; eauto).
  rewrite (fresh_db_lookup t (schema_of t)) in Htab
    by (by apply LOAD_ORDER_schema_of).
  injection Htab as <-. apply Hempty.
Qed.

End Invariant.

Lemma unique_keys_insert (tname : string) (sch : table_schema)
    (rs : list (gmap string sqlval)) (sr : gmap string sqlval) :
  check_all (check_unique tname rs sr) (ts_columns sch) = None →
  unique_keys sch rs →
  unique_keys sch (rs ++ [sr]).
Proof.
  intros Hchk Hu cd i j sr1 sr2 v Hcd Hpk Hi Hj H1 H2 Hv.
  assert (Hfresh : ∀ k sr', rs !! k = Some sr' → sr' !! col_name cd = Some v →
                            sr !! col_name cd = Some v → False).
  { intros k sr' Hk Hsr' Hsr.
    pose proof (proj1 (check_all_None _ _) Hchk cd Hcd) as Hcd'.
    unfold check_unique in Hcd'. rewrite Hpk, Hsr in Hcd'.
    assert (Hin : Some v ∈ (λ r, r !! col_name cd) <$> rs).
    { apply list_elem_of_fmap. exists sr'. split; [done |].
      apply list_elem_of_lookup. eauto. }
    destruct v; try done; by rewrite decide_True in Hcd'. }
  apply lookup_app_Some in Hi as [Hi|[Hleni Hi]];
    apply lookup_app_Some in Hj as [Hj|[Hlenj Hj]].
  - by eapply Hu.
  - apply list_lookup_singleton_Some in Hj as [_ <-]. by destruct (Hfresh i sr1).
  - apply list_lookup_singleton_Some in Hi as [_ <-]. by destruct (Hfresh j sr2).
  - apply list_lookup_singleton_Some in Hi as [Hi _].
    apply list_lookup_singleton_Some in Hj as [Hj _]. lia.
Qed.

Lemma build_row_has (convert : sqltype → sqlval → sqlval)
    (existing : list (gmap string sqlval)) (cols : list string)
    (r : gmap string value) (cds : list column_def) :
  ∀ sr,
    build_row convert existing cols r cds = inr sr →
    ∀ cd, cd ∈ cds → is_Some (sr !! col_name cd).
Proof.
  induction cds as [|cd0 cds IH]; simpl; intros sr Hb cd Hcd.
  { by apply elem_of_nil in Hcd. }
  destruct (column_value _ _ _ _ cd0) as [e|v]; [done |].
  destruct (build_row _ _ _ _ cds) as [e|m]; [done |].
  injection Hb as <-. rewrite lookup_insert_is_Some.
  destruct (decide (col_name cd0 = col_name cd)); [by left |].
  right. split; [done |].
  apply elem_of_cons in Hcd as [->|Hcd]; [done |]. by apply (IH m).
Qed.

Lemma row_valid_checked (tname : string) (sch : table_schema)
    (sr : gmap string sqlval) :
  (∀ cd, cd ∈ ts_columns sch → is_Some (sr !! col_name cd)) →
  check_all (check_not_null tname sr) (ts_columns sch) = None →
  check_all (check_in sr) (ts_columns sch) = None →
  row_valid sch sr.
Proof.
  intros Hhas Hnn Hin cd Hcd.
  destruct (Hhas cd Hcd) as [v Hv]. exists v. split; [done |].
  pose proof (proj1 (check_all_None _ _) Hnn cd Hcd) as Hnn'.
  pose proof (proj1 (check_all_None _ _) Hin cd Hcd) as Hin'.
  split.
  - intros Hcol. by apply (not_null_passed tname sr cd v).
  - intros zs Hzs. unfold check_in in Hin'. rewrite Hzs, Hv in Hin'.
    destruct v; try done; [by left |].
    right. case_decide; [eauto | done].
Qed.

(** X7. However a run ends, no table of the store it leaves has two rows
    with the same value, other than NULL, in its primary-key column. *)
Theorem primary_keys_unique (convert : sqltype → sqlval → sqlval) (w : world) :
  ∃ db,
    w_db (main convert w).2 = Some db ∧
    ∀ t, t ∈ LOAD_ORDER →
      ∃ tab, db !! t = Some tab ∧ unique_keys (schema_of t) (t_rows tab).
Proof.
  destruct (main_final convert w) as (r & db & lg & Hload & _ & Hdb & _).
  exists db. split; [done |]. intros t Ht.
  assert (Hk : schemas_kept db)
    by (eapply load_pure_kept; [apply fresh_db_kept | exact Hload]).
  destruct (Hk t (schema_of t) (LOAD_ORDER_schema_of t Ht)) as [rs Hrs].
  eexists. split; [exact Hrs |].
  assert (Hall : every_table unique_keys db).
  { apply (main_keeps convert unique_keys) with (w := w); [| | done].
    - intros tname sch rs0 cols r0 sr _ _ _ Huniq.
      by apply (unique_keys_insert tname).
    - intros sch cd i j sr1 sr2 v _ _ Hi. by rewrite lookup_nil in Hi. }
  by apply Hall in Hrs.
Qed.

(** X9. However a run ends, every row of every table of the store it leaves
    holds a value in each column of the table: not NULL where the column is
    declared NOT NULL, and within the list of the CHECK where the column has
    one (in_stock is 0 or 1). *)
Theorem stored_rows_valid (convert : sqltype → sqlval → sqlval) (w : world) :
  ∃ db,
    w_db (main convert w).2 = Some db ∧
    ∀ t, t ∈ LOAD_ORDER →
      ∃ tab, db !! t = Some tab ∧ rows_valid (schema_of t) (t_rows tab).
Proof.
  destruct (main_final convert w) as (r & db & lg & Hload & _ & Hdb & _).
  exists db. split; [done |]. intros t Ht.
  assert (Hk : schemas_kept db)
    by (eapply load_pure_kept; [apply fresh_db_kept | exact Hload]).
  destruct (Hk t (schema_of t) (LOAD_ORDER_schema_of t Ht)) as [rs Hrs].
  eexists. split; [exact Hrs |].
  assert (Hall : every_table rows_valid db).
  { apply (main_keeps convert rows_valid) with (w := w); [| | done].
    - intros tname sch rs0 cols r0 sr Hbuild Hnn Hin _ Hold sr' Hsr'.
      apply elem_of_app in Hsr' as [Hsr'|Hsr']; [by apply Hold |].
      apply list_elem_of_singleton in Hsr' as ->.
      eapply row_valid_checked; [| exact Hnn | exact Hin].
      by eapply build_row_has.
    - intros sch sr Hsr. by apply elem_of_nil in Hsr. }
  by apply Hall in Hrs.
Qed.

(** ** References between the tables *)

Section References.

Variable convert : sqltype → sqlval → sqlval.
Variable files : gmap string DataFrame.

(** In a loading loop that ends well, the rows of a table passed their
    checks against a store whose other tables, but for those loaded later,
    were what they are at the end. *)
Lemma load_pure_rows fk_on tables :
  ∀ db db' lg,
    NoDup tables →
    load_pure convert files fk_on tables db = (inr tt, db', lg) →
    ∀ l1 t l2 tab,
      tables = l1 ++ t :: l2 →
      db !! t = Some tab →
      ∃ d srs dbt,
        loaded_frame files t = inr d ∧
        db' !! t = Some (mkTable (t_schema tab) (t_rows tab ++ srs)) ∧
        Forall2 (row_passed convert fk_on t dbt tab (columns d)) (rows d) srs ∧
        (∀ p, p ≠ t → p ∉ l2 → dbt !! p = db' !! p).
Proof.
  induction tables as [|t0 tables IH]; intros db db' lg Hnd Hload l1 t l2 tab Hsplit Htab.
  { by destruct l1. }
  simpl in Hload. apply NoDup_cons in Hnd as [Hnotin Hnd].
  destruct (loaded_frame files t0) as [e|d] eqn:Hframe; [done |].
  destruct (insert_frame _ _ _ _ _) as [e|db1] eqn:Hins; [done |].
  destruct (load_pure _ _ _ _ db1) as [[r' db2] lg'] eqn:Hrest.
  injection Hload as -> -> _.
  destruct (load_pure_success _ _ _ _ _ _ _ Hnd Hrest) as (_ & Hother & _).
  apply insert_frame_inv in Hins as (tab0 & srs & Htab0 & -> & Hall).
  destruct l1 as [|t1 l1]; simpl in Hsplit; injection Hsplit as -> ->.
  - rewrite Htab in Htab0. injection Htab0 as <-.
    exists d, srs, db. split; [done |]. split; [| split; [done |]].
    + rewrite Hother by done. by rewrite lookup_insert_eq.
    + intros p Hp Hp2. rewrite Hother by done. by rewrite lookup_insert_ne.
  - assert (Hne : t1 ≠ t).
    { intros ->. apply Hnotin. set_solver. }
    eapply (IH _ _ _ Hnd Hrest l1 t l2 tab); [done |].
    by rewrite lookup_insert_ne.
Qed.

End References.

Lemma parent_precedes (l1 l2 : list string) (t : string) (fk : foreign_key) :
  LOAD_ORDER = l1 ++ t :: l2 →
  fk ∈ ts_foreign_keys (schema_of t) →
  fk_table fk ∈ l1 ∧ fk_table fk ≠ t ∧ fk_table fk ∉ l2.
Proof.
  intros Hsplit Hfk.
  assert (Hi : TABLE_SCHEMAS.*1 !! length l1 = Some t).
  { change (TABLE_SCHEMAS.*1) with LOAD_ORDER. rewrite Hsplit.
    by apply list_lookup_middle. }
  rewrite list_lookup_fmap in Hi.
  destruct (TABLE_SCHEMAS !! length l1) as [[t' sch]|] eqn:Hts; [| done].
  injection Hi as ->.
  assert (Hsch : sch = schema_of t).
  { apply schema_of_TABLE_SCHEMAS. apply list_elem_of_lookup. eauto. }
  subst sch.
  destruct (parents_first_TABLE_SCHEMAS _ _ _ fk Hts Hfk) as (j & Hj & Hp).
  change (TABLE_SCHEMAS.*1) with LOAD_ORDER in Hp. rewrite Hsplit in Hp.
  rewrite lookup_app_l in Hp by done.
  assert (Hin : fk_table fk ∈ l1) by (apply list_elem_of_lookup; eauto).
  pose proof NoDup_LOAD_ORDER as Hnd. rewrite Hsplit in Hnd.
  apply NoDup_app in Hnd as (_ & Hdis & _).
  specialize (Hdis _ Hin). set_solver.
Qed.

Lemma foreign_key_column (t : string) (fk : foreign_key) :
  t ∈ LOAD_ORDER →
  fk ∈ ts_foreign_keys (schema_of t) →
  ∃ cd, cd ∈ ts_columns (schema_of t) ∧
        col_name cd = fk_column fk ∧
        col_not_null cd = true ∧
        is_rowid_alias cd = false.
Proof.
  intros Ht Hfk. unfold LOAD_ORDER in Ht.
  repeat (apply elem_of_cons in Ht as [->|Ht];
          [vm_compute in Hfk;
           repeat (apply elem_of_cons in Hfk as [->|Hfk];
                   [match goal with
                    | |- ∃ cd, _ ∧ col_name cd = fk_column ?f ∧ _ =>
                        first
                          [ exists (not_null (fk_column f) INTEGER);
                            split; [apply (bool_decide_unpack _); by vm_compute | done]
                          | exists (not_null (fk_column f) TEXT);
                            split; [apply (bool_decide_unpack _); by vm_compute | done] ]
                    end |]);
           by apply elem_of_nil in Hfk |]).
  by apply elem_of_nil in Ht.
Qed.

(** X6. However a run ends, every stored row refers to stored rows: for each
    foreign key of its table it holds a value that is not NULL and that a row
    of the parent table holds in the parent column.  The parents are loaded
    first, in full, and are not touched afterwards. *)
Theorem references_resolved (convert : sqltype → sqlval → sqlval) (w : world) :
  ∃ db,
    w_db (main convert w).2 = Some db ∧
    ∀ t fk tab sr,
      t ∈ LOAD_ORDER →
      fk ∈ ts_foreign_keys (schema_of t) →
      db !! t = Some tab →
      sr ∈ t_rows tab →
      ∃ v ptab pr,
        sr !! fk_column fk = Some v ∧
        v ≠ SNull ∧
        db !! fk_table fk = Some ptab ∧
        pr ∈ t_rows ptab ∧
        pr !! fk_parent fk = Some v.
Proof.
  destruct (main_final convert w) as (r & db & lg & Hload & _ & Hdb & _).
  exists db. split; [done |]. intros t fk tab sr Ht Hfk Htab Hsr.
  destruct (load_pure_split _ _ _ _ _ _ _ _ Hload)
    as (done & rest & lg' & Hsplit & Hdone & _).
  pose proof NoDup_LOAD_ORDER as Hnd. rewrite Hsplit in Hnd.
  apply NoDup_app in Hnd as (Hnd_done & Hdisjoint & _).
  assert (Hk : schemas_kept db)
    by (eapply load_pure_kept; [apply fresh_db_kept | exact Hload]).
  destruct (decide (t ∈ done)) as [Hin|Hnotin].
  - apply list_elem_of_split in Hin as (l1 & l2 & ->).
    destruct (load_pure_rows convert (w_files w) true _ _ _ _ Hnd_done Hdone
                l1 t l2 (mkTable (schema_of t) []) eq_refl)
      as (d & srs & dbt & _ & Htab' & Hall & Hsame).
    { apply fresh_db_lookup. by apply LOAD_ORDER_schema_of. }
    rewrite Htab in Htab'. injection Htab' as ->. simpl in Hsr.
    rewrite <- app_assoc in Hsplit.
    destruct (parent_precedes l1 (l2 ++ rest) t fk Hsplit Hfk) as (Hp1 & Hp2 & Hp3).
    apply list_elem_of_lookup in Hsr as [i Hi].
    destruct (Forall2_lookup_r _ _ _ _ _ Hall Hi)
      as (r0 & _ & Hst & Hnn & _ & Hchk).
    simpl in Hst, Hnn, Hchk.
    destruct (foreign_key_column t fk Ht Hfk) as (cd & Hcd & Hname & Hnull & Halias).
    assert (Hv : sr !! fk_column fk
                 = Some (stored_value convert (columns d) r0 (col_name cd) (col_type cd))).
    { rewrite <- Hname. apply Hst; [| done | done].
      eapply TABLE_SCHEMAS_wf. by apply LOAD_ORDER_schema_of. }
    assert (Hparent : fk_table fk ∈ LOAD_ORDER)
      by (rewrite Hsplit; apply elem_of_app; by left).
    destruct (Hk _ _ (LOAD_ORDER_schema_of _ Hparent)) as [prs Hprs].
    eexists _, _.
    assert (Hnot : stored_value convert (columns d) r0 (col_name cd) (col_type cd)
                   ≠ SNull).
    { apply (not_null_passed t sr cd);
        [done | by rewrite <- Hname in Hv | by apply Hnn]. }
    destruct (foreign_key_passed dbt sr fk _ (mkTable (schema_of (fk_table fk)) prs)
                Hv Hnot) as (pr & Hpr & Hpv).
    { rewrite Hsame; [done | done |].
      intros Hl2. apply Hp3. apply elem_of_app. by left. }
    { by apply Hchk. }
    by exists pr.
  - assert (Hrest : t ∉ done) by done.
    rewrite (untouched_table convert (w_files w) _ _ _ Hnd_done Hdone t (schema_of t))
      in Htab; [| done | by apply LOAD_ORDER_schema_of].
    injection Htab as <-. by apply elem_of_nil in Hsr.
Qed.

(** ** The ways a run fails *)





(** ** The CHECK on in_stock *)

Section CheckNeverFails.

Variable convert : sqltype → sqlval → sqlval.







End CheckNeverFails.


